(** * Mail-Sender: the flat-file history store, the HTTP handlers and the
      browser client of [src/app/server.js] and the client script,
      embedded in Rocq.

    Conventions of the embedding.
    - A JavaScript string is a [string] whose characters are its code
      units; only code units below 256 are representable.
    - Integers that the code computes with (page numbers, offsets, sizes,
      HTTP status codes) are [Z]; the values are far below 2^53, where
      JavaScript's Number arithmetic on integers is exact.
    - Numbers whose fractional digits matter (record ids, which are
      [Date.now() + Math.random()]) belong to the engine: the type
      [number] and its conversions are fields of the class [Numbers].
      [JSON.parse], [JSON.stringify], [parseInt] and the re-decoding done by
      [Buffer] are engine functions as well and are taken the same way.
    - Code that can throw runs in the monad [M]: a state monad over the
      [World] (the file system and the SMTP outbox) whose results are
      [Ok] or [Throw]; [try_catch] is the [try { } catch { }] block.
    - The libraries the server calls (Express, multer, nodemailer, [fs])
      are modelled by their documented behaviour, as far as the server
      uses them; the callbacks and options the server passes to them are
      the server's code and are embedded as written.
    - [console.log] and [console.error] have no effect on the state that is
      modelled and are left out. *)

From Stdlib Require Import ZArith List String Ascii Bool Lia.
From Stdlib Require Import DecimalString DecimalN.
From stdpp Require Import base option list strings gmap.

Local Open Scope string_scope.
Local Open Scope Z_scope.

(** ** The engine *)

(** IEEE numbers as the engine provides them. [number_eqb] is [==] on two
    Numbers (false on NaN), [StringToNumber] is ToNumber applied to a
    String (NaN is an inhabitant of [number]). *)
Class Numbers := {
  number : Type;
  number_eqb : number -> number -> bool;
  number_add : number -> number -> number;
  number_of_bool : bool -> number;
  number_truthy : number -> bool;
  Number_toString : number -> string;
  StringToNumber : string -> number;
}.

(** What ECMAScript guarantees about Number::toString: a Number that is
    not NaN is recovered from its decimal string. *)
Class NumbersLaws `{Numbers} : Prop := {
  StringToNumber_toString :
    forall n, number_eqb n n = true ->
              number_eqb n (StringToNumber (Number_toString n)) = true;
}.

Section Values.
Context `{Numbers}.

(** The values [JSON.parse] can return. An object is the list of its own
    properties in insertion order; keys are pairwise distinct. *)
#[warnings="-register-all"]
Inductive value :=
| VNull
| VBool (b : bool)
| VNum (n : number)
| VStr (s : string)
| VArr (items : list value)
| VObj (props : list (string * value)).

End Values.

Class Engine `{Numbers} := {
  (** [JSON.parse text]; [None] is the SyntaxError. *)
  JSON_parse : string -> option value;
  (** [JSON.stringify(v, null, space)]. *)
  JSON_stringify : value -> Z -> string;
  (** [parseInt(x)] of a query parameter that may be absent; [None] is NaN. *)
  parseInt : option string -> option Z;
  (** [Buffer.from(s, 'latin1').toString('utf8')]. *)
  Buffer_latin1_to_utf8 : string -> string;
}.

(** ** Exceptions and the state monad *)

Inductive error :=
| TypeError
| SyntaxError
| ENOENT (path : string)
| EACCES (path : string)
| MulterError (code : string)
| Error (message : string)
| SMTPError (message : string).

Inductive result (A : Type) :=
| Ok (a : A)
| Throw (e : error).
Arguments Ok {A} a.
Arguments Throw {A} e.

Definition is_Ok {A} (r : result A) : Prop :=
  match r with Ok _ => True | Throw _ => False end.

(** An attachment as nodemailer receives it. *)
Record Attachment := {
  att_filename : string;
  att_path : string;
  att_contentType : string;
}.

(** [mailOptions] of the send handler. The [html] field, a template over
    the same subject, message and attachment names, is not read by
    anything in this development and is left out. *)
Record MailOptions := {
  mo_from : string;
  mo_to : string;
  mo_subject : string;
  mo_text : string;
  mo_attachments : list Attachment;
}.

(** The state the server acts on: the files, whether the file system
    currently lets the process read and write (permissions, full disk),
    and the messages handed to the SMTP transport so far. *)
Record World := {
  files : gmap string string;
  io_read : bool;
  io_write : bool;
  outbox : list MailOptions;
}.

Definition set_files (w : World) (fs : gmap string string) : World :=
  {| files := fs; io_read := io_read w; io_write := io_write w;
     outbox := outbox w |}.

Definition M (A : Type) : Type := World -> result A * World.

Definition ret {A} (a : A) : M A := fun w => (Ok a, w).

Definition throw {A} (e : error) : M A := fun w => (Throw e, w).

Definition bind {A B} (m : M A) (k : A -> M B) : M B :=
  fun w => match m w with
           | (Ok a, w') => k a w'
           | (Throw e, w') => (Throw e, w')
           end.

Definition try_catch {A} (body : M A) (handler : error -> M A) : M A :=
  fun w => match body w with
           | (Ok a, w') => (Ok a, w')
           | (Throw e, w') => handler e w'
           end.

Definition lift {A} (r : result A) : M A := fun w => (r, w).

Notation "'let!' x ':=' c1 'in' c2" := (bind c1 (fun x => c2))
  (at level 10, x name, c1 at level 100, c2 at level 200).
Notation "'run!' c1 'in' c2" := (bind c1 (fun _ => c2))
  (at level 10, c1 at level 100, c2 at level 200).

(** [array.forEach(f)] for an [f] with effects. *)
Fixpoint forEach {A} (f : A -> M unit) (l : list A) : M unit :=
  match l with
  | [] => ret tt
  | x :: l' => run! f x in forEach f l'
  end.

(** ** The file system calls the server makes *)

Definition fs_readFileSync (path : string) : M string :=
  fun w => if io_read w
           then match files w !! path with
                | Some data => (Ok data, w)
                | None => (Throw (ENOENT path), w)
                end
           else (Throw (EACCES path), w).

Definition fs_writeFileSync (path data : string) : M unit :=
  fun w => if io_write w
           then (Ok tt, set_files w (<[path := data]> (files w)))
           else (Throw (EACCES path), w).

Definition fs_existsSync (path : string) : M bool :=
  fun w => (Ok (bool_decide (is_Some (files w !! path))), w).

Definition fs_unlinkSync (path : string) : M unit :=
  fun w => if io_write w
           then match files w !! path with
                | Some _ => (Ok tt, set_files w (delete path (files w)))
                | None => (Throw (ENOENT path), w)
                end
           else (Throw (EACCES path), w).

(** ** Array and string methods on integers *)

(** The relative index of [Array.prototype.slice] and
    [String.prototype.slice]: negative indices count from the end. *)
Definition relative_index (len i : Z) : Z :=
  if i <? 0 then Z.max (len + i) 0 else Z.min i len.

Definition Array_slice {A} (l : list A) (start end_ : Z) : list A :=
  let len := Z.of_nat (length l) in
  let k := relative_index len start in
  let final := relative_index len end_ in
  take (Z.to_nat (Z.max (final - k) 0)) (drop (Z.to_nat k) l).

Definition String_slice (s : string) (start end_ : Z) : string :=
  string_of_list_ascii (Array_slice (list_ascii_of_string s) start end_).

(** A Number obtained by dividing two integers. *)
Inductive quotient :=
| Finite (z : Z)
| Infinity
| NaN.

(** [Math.ceil(a / b)] for an integer [a >= 0] and an integer [b]. *)
Definition Math_ceil_div (a b : Z) : quotient :=
  if b =? 0 then (if a =? 0 then NaN else Infinity)
  else Finite (- ((- a) / b)).

(** [n < q] and [n > m] on Numbers. *)
Definition lt_quotient (n : Z) (q : quotient) : bool :=
  match q with
  | Finite z => n <? z
  | Infinity => true
  | NaN => false
  end.

(** [x || d] for a Number [x] that is an integer or NaN. *)
Definition or_default (x : option Z) (d : Z) : Z :=
  match x with
  | Some z => if z =? 0 then d else z
  | None => d
  end.

(** ** Regular expressions

    The two patterns of the server are written as regular expressions over
    character classes and run by derivatives; [RegExp_test] is the match of
    a pattern that is anchored at both ends. *)

Inductive regex :=
| Void
| Eps
| OneOf (p : ascii -> bool)
| Cat (r1 r2 : regex)
| Alt (r1 r2 : regex)
| Star (r : regex).

Definition Plus (r : regex) : regex := Cat r (Star r).

Fixpoint nullable (r : regex) : bool :=
  match r with
  | Void => false
  | Eps => true
  | OneOf _ => false
  | Cat r1 r2 => nullable r1 && nullable r2
  | Alt r1 r2 => nullable r1 || nullable r2
  | Star _ => true
  end.

Fixpoint deriv (c : ascii) (r : regex) : regex :=
  match r with
  | Void => Void
  | Eps => Void
  | OneOf p => if p c then Eps else Void
  | Cat r1 r2 =>
      if nullable r1 then Alt (Cat (deriv c r1) r2) (deriv c r2)
      else Cat (deriv c r1) r2
  | Alt r1 r2 => Alt (deriv c r1) (deriv c r2)
  | Star r1 => Cat (deriv c r1) (Star r1)
  end.

Fixpoint matches (r : regex) (s : list ascii) : bool :=
  match s with
  | [] => nullable r
  | c :: s' => matches (deriv c r) s'
  end.

Definition RegExp_test (r : regex) (s : string) : bool :=
  matches r (list_ascii_of_string s).

(** The words of a regular expression. *)
Inductive Matches : regex -> list ascii -> Prop :=
| MEps : Matches Eps []
| MOneOf (p : ascii -> bool) (c : ascii) :
    p c = true -> Matches (OneOf p) [c]
| MCat (r1 r2 : regex) (s1 s2 : list ascii) :
    Matches r1 s1 -> Matches r2 s2 -> Matches (Cat r1 r2) (s1 ++ s2)
| MAltL (r1 r2 : regex) (s : list ascii) :
    Matches r1 s -> Matches (Alt r1 r2) s
| MAltR (r1 r2 : regex) (s : list ascii) :
    Matches r2 s -> Matches (Alt r1 r2) s
| MStar0 (r : regex) : Matches (Star r) []
| MStarS (r : regex) (s1 s2 : list ascii) :
    Matches r s1 -> Matches (Star r) s2 -> Matches (Star r) (s1 ++ s2).

Definition code (c : ascii) : Z := Z.of_nat (nat_of_ascii c).

(** [\s] on code units below 256: TAB, LF, VT, FF, CR, SP and NBSP. *)
Definition is_space (c : ascii) : bool :=
  ((9 <=? code c) && (code c <=? 13)) || (code c =? 32) || (code c =? 160).

Definition chr (a : ascii) : regex := OneOf (Ascii.eqb a).

Definition any : regex := OneOf (fun _ => true).

(** [toLowerCase] on code units below 256: A-Z, and the accented capitals
    0xC0-0xDE without the multiplication sign 0xD7. *)
Definition lower_char (c : ascii) : ascii :=
  if ((65 <=? code c) && (code c <=? 90))
     || ((192 <=? code c) && (code c <=? 222) && negb (code c =? 215))
  then ascii_of_nat (nat_of_ascii c + 32)
  else c.

Definition toLowerCase (s : string) : string :=
  string_of_list_ascii (map lower_char (list_ascii_of_string s)).

(** A letter of a pattern under the [i] flag: only the two ASCII cases of
    the letter match it. *)
Definition chr_i (a : ascii) : regex :=
  OneOf (fun c => (code c <? 128) && Ascii.eqb (lower_char c) a).

Fixpoint word_i (s : string) : regex :=
  match s with
  | EmptyString => Eps
  | String a s' => Cat (chr_i a) (word_i s')
  end.

Fixpoint alternatives (l : list regex) : regex :=
  match l with
  | [] => Void
  | [r] => r
  | r :: l' => Alt r (alternatives l')
  end.

(** [/^[^\s@]+@[^\s@]+\.[^\s@]+$/] *)
Definition not_space_at : regex :=
  OneOf (fun c => negb (is_space c) && negb (Ascii.eqb c "@")).

Definition emailRegex : regex :=
  Cat (Plus not_space_at)
    (Cat (chr "@")
       (Cat (Plus not_space_at)
          (Cat (chr ".") (Plus not_space_at)))).

(** [/\.(jpg|jpeg|png|gif|pdf|doc|docx|txt|zip|rar|xlsx|xls|ppt|pptx)$/i];
    the pattern is not anchored at the start, so any prefix may precede. *)
Definition allowedTypes : regex :=
  Cat (Star any)
    (Cat (chr ".")
       (alternatives
          (map word_i ["jpg"; "jpeg"; "png"; "gif"; "pdf"; "doc"; "docx";
                       "txt"; "zip"; "rar"; "xlsx"; "xls"; "ppt"; "pptx"]))).

Section Server.
Context `{Engine}.

(** ** Property access, conversions and loose equality on parsed values *)

Fixpoint own_property (key : string) (props : list (string * value))
  : option value :=
  match props with
  | [] => None
  | (k, v) :: props' => if String.eqb k key then Some v
                        else own_property key props'
  end.

(** CreateDataProperty: an existing key keeps its place. *)
Fixpoint obj_set (key : string) (v : value) (props : list (string * value))
  : list (string * value) :=
  match props with
  | [] => [(key, v)]
  | (k, v0) :: props' => if String.eqb k key then (k, v) :: props'
                         else (k, v0) :: obj_set key v props'
  end.

(** [{ ...source }] spread into [target]. *)
Definition spread (target source : list (string * value))
  : list (string * value) :=
  fold_left (fun acc kv => obj_set (fst kv) (snd kv) acc) source target.

(** [email.id]: [None] is [undefined]; reading a property of [null]
    throws. Arrays and primitives have no property of that name. *)
Definition Get_id (email : value) : result (option value) :=
  match email with
  | VNull => Throw TypeError
  | VObj props => Ok (own_property "id" props)
  | _ => Ok None
  end.

Definition ToBoolean (v : value) : bool :=
  match v with
  | VNull => false
  | VBool b => b
  | VNum n => number_truthy n
  | VStr s => negb (String.eqb s EmptyString)
  | VArr _ => true
  | VObj _ => true
  end.

(** ToString. On a parsed object the inherited [toString] answers
    "[object Object]", unless an own property of that name (never a
    function) hides it, in which case OrdinaryToPrimitive throws. An array
    joins its elements, [null] giving the empty string. *)
Fixpoint ToString (v : value) : result string :=
  match v with
  | VNull => Ok "null"
  | VBool b => Ok (if b then "true" else "false")
  | VNum n => Ok (Number_toString n)
  | VStr s => Ok s
  | VArr items =>
      (fix join (l : list value) : result string :=
         match l with
         | [] => Ok EmptyString
         | x :: l' =>
             match (match x with
                    | VNull => Ok EmptyString
                    | _ => ToString x
                    end) with
             | Throw e => Throw e
             | Ok sx =>
                 match l' with
                 | [] => Ok sx
                 | _ => match join l' with
                        | Throw e => Throw e
                        | Ok rest => Ok (sx ++ "," ++ rest)
                        end
                 end
             end
         end) items
  | VObj props =>
      match own_property "toString" props with
      | Some _ => Throw TypeError
      | None => Ok "[object Object]"
      end
  end.

(** [x == id] where [id] is a String and [x] is a parsed value or
    [undefined] (IsLooselyEqual). *)
Definition loose_eq (x : option value) (id : string) : result bool :=
  match x with
  | None => Ok false
  | Some VNull => Ok false
  | Some (VBool b) => Ok (number_eqb (number_of_bool b) (StringToNumber id))
  | Some (VNum n) => Ok (number_eqb n (StringToNumber id))
  | Some (VStr s) => Ok (String.eqb s id)
  | Some v => match ToString v with
              | Ok s => Ok (String.eqb s id)
              | Throw e => Throw e
              end
  end.

(** The callbacks [email => email.id == id] and [email => email.id != id]. *)
Definition id_eq (id : string) (email : value) : result bool :=
  match Get_id email with
  | Ok x => loose_eq x id
  | Throw e => Throw e
  end.

Definition id_ne (id : string) (email : value) : result bool :=
  match id_eq id email with
  | Ok b => Ok (negb b)
  | Throw e => Throw e
  end.

(** [Array.prototype.find] and [Array.prototype.filter] with a callback
    that can throw. *)
Fixpoint Array_find (f : value -> result bool) (l : list value)
  : result (option value) :=
  match l with
  | [] => Ok None
  | x :: l' => match f x with
               | Throw e => Throw e
               | Ok true => Ok (Some x)
               | Ok false => Array_find f l'
               end
  end.

Fixpoint Array_filter (f : value -> result bool) (l : list value)
  : result (list value) :=
  match l with
  | [] => Ok []
  | x :: l' => match f x with
               | Throw e => Throw e
               | Ok b => match Array_filter f l' with
                         | Throw e => Throw e
                         | Ok r => Ok (if b then x :: r else r)
                         end
               end
  end.

(** What the environment answers during one call: the clock, the random
    generator, the SMTP relay and the process environment. *)
Record Env := {
  Date_now : number;
  Math_random : number;
  Date_toISOString : string;
  FROM_EMAIL : option string;
  smtp_reply : MailOptions -> result string;
}.

(** ** Database helper functions (server.js, lines 9-82) *)

Definition dbPath : string := "/app/data/emails.json".

Definition JSON_parse_M (text : string) : M value :=
  match JSON_parse text with
  | Some v => ret v
  | None => throw SyntaxError
  end.

Definition readDatabase : M value :=
  try_catch
    (let! data := fs_readFileSync dbPath in
     JSON_parse_M data)
    (fun _ => ret (VArr [])).

Definition writeDatabase (data : value) : M bool :=
  try_catch
    (run! fs_writeFileSync dbPath (JSON_stringify data 2) in
     ret true)
    (fun _ => ret false).

(** The object [{ id: Date.now() + Math.random(), ...emailData,
    sent_at: new Date().toISOString() }]. *)
Definition newEmail (env : Env) (emailData : list (string * value))
  : list (string * value) :=
  obj_set "sent_at" (VStr (Date_toISOString env))
    (spread [("id", VNum (number_add (Date_now env) (Math_random env)))]
            emailData).

(** [emails.unshift(newEmail)] is a TypeError unless [emails] is an array. *)
Definition addEmail (env : Env) (emailData : list (string * value))
  : M (option value) :=
  let! emails := readDatabase in
  match emails with
  | VArr items =>
      run! writeDatabase (VArr (VObj (newEmail env emailData) :: items)) in
      ret (own_property "id" (newEmail env emailData))
  | _ => throw TypeError
  end.

Record Page := {
  pg_emails : value;
  pg_total : Z;
  pg_page : Z;
  pg_totalPages : quotient;
}.

(** [emails.slice] exists on arrays and on strings, and is a TypeError on
    every other parsed value. *)
Definition getEmails (page limit : option Z) : M Page :=
  let page := default 1 page in
  let limit := default 10 limit in
  let! emails := readDatabase in
  let startIndex := (page - 1) * limit in
  let endIndex := startIndex + limit in
  match emails with
  | VArr items =>
      ret {| pg_emails := VArr (Array_slice items startIndex endIndex);
             pg_total := Z.of_nat (length items);
             pg_page := page;
             pg_totalPages := Math_ceil_div (Z.of_nat (length items)) limit |}
  | VStr s =>
      ret {| pg_emails := VStr (String_slice s startIndex endIndex);
             pg_total := Z.of_nat (String.length s);
             pg_page := page;
             pg_totalPages :=
               Math_ceil_div (Z.of_nat (String.length s)) limit |}
  | _ => throw TypeError
  end.

Definition getEmailById (id : string) : M (option value) :=
  let! emails := readDatabase in
  match emails with
  | VArr items => lift (Array_find (id_eq id) items)
  | _ => throw TypeError
  end.

Definition deleteEmailById (id : string) : M bool :=
  let! emails := readDatabase in
  match emails with
  | VArr items =>
      let! filteredEmails := lift (Array_filter (id_ne id) items) in
      let deleted := negb (length items =? length filteredEmails)%nat in
      if deleted
      then run! writeDatabase (VArr filteredEmails) in ret deleted
      else ret deleted
  | _ => throw TypeError
  end.

(** ** The store as the database helpers see it *)

(** What [readDatabase] answers in a world. *)
Definition db_value (w : World) : value :=
  if io_read w
  then match files w !! dbPath with
       | Some data => match JSON_parse data with
                      | Some v => v
                      | None => VArr []
                      end
       | None => VArr []
       end
  else VArr [].

(** The callback of [find] as a plain test, where it does not throw. *)
Definition id_matches (id : string) (email : value) : bool :=
  match id_eq id email with
  | Ok true => true
  | _ => false
  end.

(** No stored item makes the comparison with [id] throw. *)
Definition comparable (id : string) (items : list value) : Prop :=
  Forall (fun email => is_Ok (id_eq id email)) items.

(** A stored item that is a record whose id, if it has one, is a
    primitive value: what [addEmail] writes. *)
Definition plain_record (email : value) : Prop :=
  match email with
  | VObj props =>
      match own_property "id" props with
      | Some (VArr _) | Some (VObj _) => False
      | _ => True
      end
  | _ => False
  end.

(** The store cannot be read as JSON text: the file system refuses, the
    file is missing, or its text is not valid JSON. *)
Definition store_unusable (w : World) : Prop :=
  io_read w = false
  \/ files w !! dbPath = None
  \/ exists data, files w !! dbPath = Some data /\ JSON_parse data = None.

(** ** File uploads (server.js, lines 84-114 and 144-154) *)

(** A file part of a multipart request as the parser delivers it. [size]
    is the number of bytes counted on the stream; it is kept apart from
    [content] so that large files can be written down. [stamp] is what
    [Date.now()] answers when the [filename] callback runs for this file. *)
Record IncomingFile := {
  in_fieldname : string;
  in_originalname : string;
  in_mimetype : string;
  in_size : Z;
  in_content : string;
  in_stamp : number;
}.

(** An entry of [req.files]. *)
Record UploadedFile := {
  originalname : string;
  mimetype : string;
  size : Z;
  path : string;
}.

Definition fileSize : Z := 10 * 1024 * 1024.

Definition files_limit : Z := 5.

Definition uploadDir : string := "/tmp/uploads".

(** The [filename] callback of the disk storage. *)
Definition storage_filename (file : IncomingFile) : string :=
  Number_toString (in_stamp file) ++ "-"
  ++ Buffer_latin1_to_utf8 (in_originalname file).

(** [path.join(uploadDir, filename)] for a file name that is one path
    segment. *)
Definition storage_path (file : IncomingFile) : string :=
  uploadDir ++ "/" ++ storage_filename file.

(** [cb(null, true)] is [Ok tt], [cb(new Error(...), false)] the error. *)
Definition fileFilter (file : IncomingFile) : result unit :=
  if RegExp_test allowedTypes (in_originalname file)
  then Ok tt
  else Throw (Error "File type not allowed").

(** Removal that swallows its errors: [cleanupFile] of the server, and
    what multer does with the files it has stored when a later one
    fails. *)
Definition cleanupFile (filePath : string) : M unit :=
  try_catch
    (let! present := fs_existsSync filePath in
     if present then fs_unlinkSync filePath else ret tt)
    (fun _ => ret tt).

(** The entry of [req.files] for a part that was stored. *)
Definition stored_file (file : IncomingFile) : UploadedFile :=
  {| originalname := in_originalname file;
     mimetype := in_mimetype file;
     size := in_size file;
     path := storage_path file |}.

(** The disk storage writes the file; an error of the write is reported,
    not thrown. *)
Definition storage_handleFile (file : IncomingFile) : M (option error) :=
  try_catch
    (run! fs_writeFileSync (storage_path file) (in_content file) in ret None)
    (fun e => ret (Some e)).

(** A file part whose file name is empty or absent (the part a browser
    sends for a file input without a file): [!filename] in multer. *)
Definition unnamed (file : IncomingFile) : bool :=
  String.eqb (in_originalname file) EmptyString.

(** The file parts that carry a file name, in their order. *)
Definition named_parts (parts : list IncomingFile) : list IncomingFile :=
  List.filter (fun file => negb (unnamed file)) parts.

(** multer with [limits: { fileSize, files: 5 }], the file filter and
    [upload.array('attachments', 5)]: the parts are taken in order; the
    first one that breaks a limit aborts the request with an error, after
    the files stored so far are removed. [seen] is the number of file
    parts the parser has counted so far, [stored] are the files accepted
    so far and [n] is their number.
    - The parser counts every file part, named or not, against
      [limits.files], before multer sees the part.
    - multer drops a part without file name ([if (!filename) return
      fileStream.resume()]) before the field name, the file filter and the
      size are looked at: such a part is neither tested nor stored.
    - The parser raises the size limit as soon as the bytes of a file
      reach [limits.fileSize]: a file is accepted only if it is smaller
      than the limit. *)
Fixpoint multer (field : string) (maxCount : Z) (seen n : Z)
    (stored : list UploadedFile) (parts : list IncomingFile)
  : M (list UploadedFile) :=
  match parts with
  | [] => ret stored
  | file :: parts' =>
      let abort (e : error) : M (list UploadedFile) :=
        run! forEach (fun f => cleanupFile (path f)) stored in throw e in
      if files_limit <=? seen then abort (MulterError "LIMIT_FILE_COUNT")
      else if unnamed file
      then multer field maxCount (seen + 1) n stored parts'
      else if negb (String.eqb (in_fieldname file) field) || (maxCount <=? n)
      then abort (MulterError "LIMIT_UNEXPECTED_FILE")
      else
        match fileFilter file with
        | Throw e => abort e
        | Ok _ =>
            if fileSize <=? in_size file
            then abort (MulterError "LIMIT_FILE_SIZE")
            else
              let! failed := storage_handleFile file in
              match failed with
              | Some e => abort e
              | None =>
                  multer field maxCount (seen + 1) (n + 1)
                    (stored ++ [stored_file file]) parts'
              end
        end
  end.

Definition upload_array (field : string) (maxCount : Z)
    (parts : list IncomingFile) : M (list UploadedFile) :=
  multer field maxCount 0 0 [] parts.

(** ** HTTP responses *)

Record Pagination := {
  currentPage : Z;
  totalPages : quotient;
  totalEmails : Z;
  hasNext : bool;
  hasPrev : bool;
}.

(** The JSON bodies the server answers with, one constructor per shape. *)
Inductive Body :=
| EmailsBody (emails : value) (pagination : Pagination)
    (* { success: true, emails, pagination } *)
| FailureBody (error : string)
    (* { success: false, error } *)
| ErrorBody (error : string)
    (* { error } *)
| EmailBody (email : value)
| MessageBody (message : string)
    (* { message } *)
| RejectedBody (message : string)
    (* { success: false, message } *)
| SentBody (emailId : option value) (messageId : string)
    (* { success: true, message: 'Email sent successfully!', emailId,
         messageId } *)
| SendFailedBody (e : error)
    (* { success: false, message: 'Failed to send email: ' + e.message } *)
| UncaughtBody (e : error).
    (* the page of Express's default error handler *)

Record Response := {
  status : Z;
  body : Body;
}.

(** Express's default error handler: an error without a [status] of its
    own is answered with 500. *)
Definition express_error (e : error) : Response :=
  {| status := 500; body := UncaughtBody e |}.

(** ** Routes (server.js, lines 173-335) *)

(** GET /api/emails *)
Definition get_api_emails (query_page query_limit : option string)
  : M Response :=
  try_catch
    (let page := or_default (parseInt query_page) 1 in
     let limit := or_default (parseInt query_limit) 10 in
     let! result := getEmails (Some page) (Some limit) in
     ret {| status := 200;
            body := EmailsBody (pg_emails result)
                      {| currentPage := pg_page result;
                         totalPages := pg_totalPages result;
                         totalEmails := pg_total result;
                         hasNext := lt_quotient (pg_page result)
                                      (pg_totalPages result);
                         hasPrev := 1 <? pg_page result |} |})
    (fun _ => ret {| status := 500; body := FailureBody "Database error" |}).

(** GET /api/emails/:id *)
Definition get_api_emails_id (emailId : string) : M Response :=
  try_catch
    (let! email := getEmailById emailId in
     match email with
     | Some e =>
         if ToBoolean e then ret {| status := 200; body := EmailBody e |}
         else ret {| status := 404; body := ErrorBody "Email not found" |}
     | None => ret {| status := 404; body := ErrorBody "Email not found" |}
     end)
    (fun _ => ret {| status := 500; body := ErrorBody "Database error" |}).

(** DELETE /api/emails/:id *)
Definition delete_api_emails_id (emailId : string) : M Response :=
  try_catch
    (let! deleted := deleteEmailById emailId in
     if negb deleted
     then ret {| status := 404; body := ErrorBody "Email not found" |}
     else ret {| status := 200;
                 body := MessageBody "Email deleted successfully" |})
    (fun _ => ret {| status := 500; body := ErrorBody "Database error" |}).

(** The text fields of a send request, each absent or a string, and its
    file parts. *)
Record SendRequest := {
  body_to : option string;
  body_subject : option string;
  body_message : option string;
  parts : list IncomingFile;
}.

(** [!x] for a field that is [undefined] or a string. *)
Definition missing (x : option string) : bool :=
  match x with
  | None => true
  | Some s => String.eqb s EmptyString
  end.

(** [transporter.sendMail(mailOptions)]: the message is handed to the
    transport, which answers with the message id or fails. *)
Definition transporter_sendMail (env : Env) (mailOptions : MailOptions)
  : M string :=
  fun w => (smtp_reply env mailOptions,
            {| files := files w; io_read := io_read w;
               io_write := io_write w;
               outbox := outbox w ++ [mailOptions] |}).

(** [process.env.FROM_EMAIL || 'admin@localhost'] *)
Definition from_address (env : Env) : string :=
  match FROM_EMAIL env with
  | Some s => if String.eqb s EmptyString then "admin@localhost" else s
  | None => "admin@localhost"
  end.

(** [attachments], [mailOptions] and [emailData] of the send handler. *)
Definition attachments_of (uploadedFiles : list UploadedFile)
  : list Attachment :=
  map (fun file =>
         {| att_filename := Buffer_latin1_to_utf8 (originalname file);
            att_path := path file;
            att_contentType := mimetype file |}) uploadedFiles.

Definition mailOptions_of (env : Env) (to subject message : string)
    (attachments : list Attachment) : MailOptions :=
  {| mo_from := from_address env;
     mo_to := to;
     mo_subject := subject;
     mo_text := message;
     mo_attachments := attachments |}.

Definition emailData_of (to subject message : string)
    (attachments : list Attachment) (info_messageId : string)
  : list (string * value) :=
  [("to", VStr to);
   ("subject", VStr subject);
   ("message", VStr message);
   ("attachments", VArr (map (fun att => VStr (att_filename att)) attachments));
   ("messageId", VStr info_messageId);
   ("status", VStr "sent")].

(** The handler of POST /api/send-email, given [req.files]. Past the first
    test the three fields are non-empty strings. *)
Definition send_email (env : Env) (req : SendRequest)
    (uploadedFiles : list UploadedFile) : M Response :=
  let cleanup := forEach (fun file => cleanupFile (path file)) uploadedFiles in
  try_catch
    (let to := default EmptyString (body_to req) in
     let subject := default EmptyString (body_subject req) in
     let message := default EmptyString (body_message req) in
     if missing (body_to req) || missing (body_subject req)
        || missing (body_message req)
     then
       run! cleanup in
       ret {| status := 400;
              body := RejectedBody
                        "To, subject, and message are required fields" |}
     else if negb (RegExp_test emailRegex to)
     then
       run! cleanup in
       ret {| status := 400; body := RejectedBody "Invalid email address" |}
     else
       let attachments := attachments_of uploadedFiles in
       let mailOptions := mailOptions_of env to subject message attachments in
       let! info_messageId := transporter_sendMail env mailOptions in
       let emailData :=
         emailData_of to subject message attachments info_messageId in
       let! emailId := addEmail env emailData in
       run! cleanup in
       ret {| status := 200; body := SentBody emailId info_messageId |})
    (fun error =>
       run! cleanup in
       ret {| status := 500; body := SendFailedBody error |}).

(** POST /api/send-email: [upload.array('attachments', 5)], then the
    handler; an error of the middleware goes to Express's error handler and
    the handler does not run. *)
Definition post_api_send_email (env : Env) (req : SendRequest) : M Response :=
  let! uploaded :=
    try_catch
      (let! uploadedFiles := upload_array "attachments" 5 (parts req) in
       ret (inl uploadedFiles))
      (fun e => ret (inr e)) in
  match uploaded with
  | inl uploadedFiles => send_email env req uploadedFiles
  | inr e => ret (express_error e)
  end.

(** ** Notions used in the statements *)

(** The fields of a send request do not pass the validation of the
    handler: one of them is missing or empty, or [to] does not match the
    pattern. *)
Definition invalid_fields (req : SendRequest) : bool :=
  missing (body_to req) || missing (body_subject req)
  || missing (body_message req)
  || negb (RegExp_test emailRegex (default EmptyString (body_to req))).

(** A named file part that passes the field name, the file filter and
    the size limit of the upload middleware: its size is below the
    limit. *)
Definition acceptable (field : string) (file : IncomingFile) : bool :=
  String.eqb (in_fieldname file) field
  && RegExp_test allowedTypes (in_originalname file)
  && (in_size file <? fileSize).

(** Two worlds agree on the store file, on what the file system allows
    and on the outbox. *)
Definition same_store (w w' : World) : Prop :=
  files w' !! dbPath = files w !! dbPath
  /\ io_read w' = io_read w
  /\ io_write w' = io_write w
  /\ outbox w' = outbox w.

(** Files of [req.files] whose paths are not the path of the store. *)
Definition outside_store (fl : list UploadedFile) : Prop :=
  Forall (fun f => path f <> dbPath) fl.

(** The parts of a request pass the upload middleware when the parser
    has counted [seen] file parts and [n] files were stored before them:
    every named part is acceptable; if there is a part, the number of
    parts stays within the limit on files; and if there is a named part,
    the number of stored files stays within [maxCount] and the storage can
    write. *)
Definition passes_from (field : string) (maxCount seen n : Z)
    (parts : list IncomingFile) (w : World) : Prop :=
  Forall (fun file => acceptable field file = true) (named_parts parts)
  /\ (parts <> [] -> seen + Z.of_nat (length parts) <= files_limit)
  /\ (named_parts parts <> [] ->
      n + Z.of_nat (length (named_parts parts)) <= maxCount
      /\ io_write w = true).

(** The same for a request of which [n] file parts were taken before, all
    of them stored. *)
Definition passes_upload (field : string) (maxCount n : Z)
    (parts : list IncomingFile) (w : World) : Prop :=
  passes_from field maxCount n n parts w.

(** C5 speaks of the records whose id matches the given id. A record
    whose own [id] is a Number or a String (every record the server writes
    has a Number id) matches the text [id] of the URL when its id is that
    text, or is the Number that the text denotes; a record without id
    matches no text. This is stated without the callbacks of
    [deleteEmailById]. *)
Definition has_id (id : string) (email : value) : bool :=
  match email with
  | VObj props =>
      match own_property "id" props with
      | Some (VStr s) => String.eqb s id
      | Some (VNum n) => number_eqb n (StringToNumber id)
      | _ => false
      end
  | _ => false
  end.

(** A stored item that is a record without id or with a Number or String
    id. *)
Definition keyed_record (email : value) : Prop :=
  match email with
  | VObj props =>
      match own_property "id" props with
      | None | Some (VNum _) | Some (VStr _) => True
      | _ => False
      end
  | _ => False
  end.

(** C2 as the specification words it: a request whose fields are invalid
    is answered with 400, nothing is handed to the transport and the store
    file is unchanged. *)
Definition invalid_request_answered_400 (env : Env) (req : SendRequest)
    (w : World) : Prop :=
  invalid_fields req = true ->
  exists r w',
    post_api_send_email env req w = (Ok r, w')
    /\ status r = 400
    /\ outbox w' = outbox w
    /\ files w' !! dbPath = files w !! dbPath.

(** C3 as the specification words it: the list stored after [addEmail] is
    the list stored before with the new record at its end. *)
Definition new_record_appended (env : Env)
    (emailData : list (string * value)) (w : World) : Prop :=
  forall items id w' items',
    readDatabase w = (Ok (VArr items), w) ->
    addEmail env emailData w = (Ok id, w') ->
    readDatabase w' = (Ok (VArr items'), w') ->
    items' = (items ++ [VObj (newEmail env emailData)])%list.

End Server.

(** ** The browser client *)

Module Client.

Record File := {
  name : string;
  size : Z;
}.

(** An element of class [email-item]: the text of its first [h4], if it
    has one, and its [style.display]. *)
Record EmailItem := {
  h4 : option string;
  display : string;
}.

(** A request issued with [fetch]. *)
Record Fetch := {
  method : string;
  url : string;
}.

Record State := {
  selectedFiles : list File;
  emailItems : list EmailItem;
  alerts : list string;
  fetched : list Fetch;
}.

Definition same_file (a b : File) : bool :=
  String.eqb (name a) (name b) && (size a =? size b).

(** The [forEach] of [handleFileSelection]: [selected] is the global
    [selectedFiles], [shown] the alerts raised so far. *)
Fixpoint add_files (newFiles : list File) (selected : list File)
    (shown : list string) : list File * list string :=
  match newFiles with
  | [] => (selected, shown)
  | file :: rest =>
      let exists_ := existsb (fun existingFile => same_file existingFile file)
                       selected in
      if negb exists_
      then
        if 10 * 1024 * 1024 <? size file
        then add_files rest selected
               (shown ++ ["File " ++ name file
                          ++ " is too large. Maximum size is 10MB."])
        else add_files rest (selected ++ [file]) shown
      else add_files rest selected shown
  end.

Definition handleFileSelection (newFiles : list File) (st : State) : State :=
  let (selected, shown) := add_files newFiles (selectedFiles st) (alerts st) in
  if (5 <? Z.of_nat (length selected))
  then {| selectedFiles := Array_slice selected 0 5;
          emailItems := emailItems st;
          alerts :=
            shown ++ ["Maximum 5 files allowed. Keeping first 5 files."];
          fetched := fetched st |}
  else {| selectedFiles := selected;
          emailItems := emailItems st;
          alerts := shown;
          fetched := fetched st |}.

(** [selectedFiles.splice(index, 1)] for an index the page generates. *)
Definition removeFile (index : nat) (st : State) : State :=
  {| selectedFiles := take index (selectedFiles st)
                      ++ drop (S index) (selectedFiles st);
     emailItems := emailItems st;
     alerts := alerts st;
     fetched := fetched st |}.

Fixpoint prefix (p s : list ascii) : bool :=
  match p, s with
  | [], _ => true
  | _ :: _, [] => false
  | a :: p', b :: s' => Ascii.eqb a b && prefix p' s'
  end.

Fixpoint includes_from (s p : list ascii) : bool :=
  prefix p s ||
  match s with
  | [] => false
  | _ :: s' => includes_from s' p
  end.

(** [s.includes(searchString)] *)
Definition String_includes (s searchString : string) : bool :=
  includes_from (list_ascii_of_string s) (list_ascii_of_string searchString).

(** [handleSearch], given [e.target.value]. *)
Definition handleSearch (target_value : string) (st : State) : State :=
  let searchTerm := toLowerCase target_value in
  {| selectedFiles := selectedFiles st;
     emailItems :=
       map (fun item =>
              match h4 item with
              | Some textContent =>
                  if String_includes (toLowerCase textContent) searchTerm
                  then {| h4 := h4 item; display := "block" |}
                  else {| h4 := h4 item; display := "none" |}
              | None => {| h4 := h4 item; display := "none" |}
              end) (emailItems st);
     alerts := alerts st;
     fetched := fetched st |}.

(** A file within the size limit of the page. *)
Definition small (file : File) : Prop := size file <= 10 * 1024 * 1024.

(** [text] contains [term] when case is ignored: some part of [text] and
    [term] have the same lower-case form. *)
Definition contains_ci (text term : string) : Prop :=
  exists pre mid post,
    text = pre ++ mid ++ post /\ toLowerCase mid = toLowerCase term.

End Client.

(** ** An executable engine

    A small engine on which the definitions above run. Its Numbers are the
    finite decimal numerals (sign, integer digits, fractional digits), which
    is what Number::toString prints for an id; exponents, hexadecimal
    literals and infinities are not covered, and neither are code units
    above 255. The theorems below do not depend on it: they hold for every
    engine. It serves to evaluate the model on concrete requests. *)

Module Exec.

Import Decimal.

Inductive num :=
| NotANumber
| Dec (negative : bool) (int_part frac_part : uint).

Definition strip_zeros (f : uint) : uint := rev (nzhead (rev f)).

(** The numeral without leading and trailing zeros; zero has no sign. *)
Definition norm (neg : bool) (i f : uint) : bool * uint * uint :=
  let i' := unorm i in
  let f' := strip_zeros f in
  (neg && negb (uint_beq i' (D0 Nil) && uint_beq f' Nil), i', f').

Definition num_eqb (a b : num) : bool :=
  match a, b with
  | Dec n1 i1 f1, Dec n2 i2 f2 =>
      let '(s1, a1, b1) := norm n1 i1 f1 in
      let '(s2, a2, b2) := norm n2 i2 f2 in
      Bool.eqb s1 s2 && uint_beq a1 a2 && uint_beq b1 b2
  | _, _ => false
  end.

Definition mantissa (n : num) : Z :=
  match n with
  | NotANumber => 0
  | Dec neg i f =>
      let m := Z.of_N (N.of_uint (app i f)) in
      if neg then - m else m
  end.

Definition scale (n : num) : nat :=
  match n with
  | NotANumber => O
  | Dec _ _ f => nb_digits f
  end.

(** The numeral of [m / 10^k]. *)
Definition of_scaled (m : Z) (k : nat) : num :=
  let a := Z.abs_N m in
  let p := (10 ^ N.of_nat k)%N in
  let r := (a mod p)%N in
  let digits := if (r =? 0)%N then Nil else N.to_uint r in
  let f := Nat.iter (k - nb_digits digits) D0 digits in
  Dec (m <? 0) (N.to_uint (a / p)) (strip_zeros f).

Definition num_add (a b : num) : num :=
  match a, b with
  | Dec _ _ _, Dec _ _ _ =>
      let k := Nat.max (scale a) (scale b) in
      of_scaled (mantissa a * 10 ^ Z.of_nat (k - scale a)
                 + mantissa b * 10 ^ Z.of_nat (k - scale b)) k
  | _, _ => NotANumber
  end.

Definition num_of_bool (b : bool) : num :=
  if b then Dec false (D1 Nil) Nil else Dec false (D0 Nil) Nil.

Definition num_truthy (n : num) : bool :=
  match n with
  | NotANumber => false
  | Dec _ i f => negb (uint_beq (unorm i) (D0 Nil)
                       && uint_beq (strip_zeros f) Nil)
  end.

(** The integer digits as [to_string] prints them. *)
Definition printed (i : uint) : uint :=
  match i with
  | Nil => D0 Nil
  | _ => i
  end.

Definition to_string (n : num) : string :=
  match n with
  | NotANumber => "NaN"
  | Dec neg i f =>
      (if neg then "-" else EmptyString)
      ++ NilZero.string_of_uint i
      ++ match f with
         | Nil => EmptyString
         | _ => "." ++ NilEmpty.string_of_uint f
         end
  end.

Fixpoint split_dot (s : string) : string * string :=
  match s with
  | EmptyString => (EmptyString, EmptyString)
  | String c r =>
      if Ascii.eqb c "." then (EmptyString, r)
      else let (a, b) := split_dot r in (String c a, b)
  end.

Definition of_digits (neg : bool) (body : string) : num :=
  let (ip, fp) := split_dot body in
  match NilEmpty.uint_of_string ip, NilEmpty.uint_of_string fp with
  | Some Nil, Some Nil => NotANumber
  | Some i, Some f => Dec neg i f
  | _, _ => NotANumber
  end.

Definition of_string (s : string) : num :=
  match s with
  | EmptyString => Dec false (D0 Nil) Nil
  | String c r =>
      if Ascii.eqb c "-" then of_digits true r
      else if Ascii.eqb c "+" then of_digits false r
      else of_digits false s
  end.

#[export] Instance numbers : Numbers := {|
  number := num;
  number_eqb := num_eqb;
  number_add := num_add;
  number_of_bool := num_of_bool;
  number_truthy := num_truthy;
  Number_toString := to_string;
  StringToNumber := of_string;
|}.

(** *** JSON text *)

Definition dq : ascii := "034"%char.
Definition backslash : ascii := "092"%char.
Definition nl : ascii := "010"%char.

Definition hex_char (n : Z) : ascii :=
  if n <? 10 then ascii_of_nat (Z.to_nat (48 + n))
  else ascii_of_nat (Z.to_nat (87 + n)).

Definition escape_char (c : ascii) : string :=
  if Ascii.eqb c dq then String backslash (String dq EmptyString)
  else if Ascii.eqb c backslash
  then String backslash (String backslash EmptyString)
  else if code c =? 8 then String backslash "b"
  else if code c =? 12 then String backslash "f"
  else if code c =? 10 then String backslash "n"
  else if code c =? 13 then String backslash "r"
  else if code c =? 9 then String backslash "t"
  else if code c <? 32
  then String backslash
         (String "u" (String "0" (String "0"
            (String (hex_char (code c / 16))
               (String (hex_char (code c mod 16)) EmptyString)))))
  else String c EmptyString.

Fixpoint escape (s : string) : string :=
  match s with
  | EmptyString => EmptyString
  | String c r => escape_char c ++ escape r
  end.

Definition quote (s : string) : string :=
  String dq (escape s ++ String dq EmptyString).

Fixpoint join (sep : string) (l : list string) : string :=
  match l with
  | [] => EmptyString
  | [x] => x
  | x :: l' => x ++ sep ++ join sep l'
  end.

(** SerializeJSONProperty with the gap [gap] at the indentation
    [indent]. *)
Fixpoint stringify (gap indent : string) (v : value) : string :=
  let inner := indent ++ gap in
  let compact := String.eqb gap EmptyString in
  let sep := if compact then "," else "," ++ String nl inner in
  let opening := if compact then EmptyString else String nl inner in
  let closing := if compact then EmptyString else String nl indent in
  match v with
  | VNull => "null"
  | VBool b => if b then "true" else "false"
  | VNum n => match n with NotANumber => "null" | _ => to_string n end
  | VStr s => quote s
  | VArr [] => "[]"
  | VArr items =>
      "[" ++ opening ++ join sep (map (stringify gap inner) items)
      ++ closing ++ "]"
  | VObj [] => "{}"
  | VObj props =>
      "{" ++ opening
      ++ join sep
           (map (fun kv => quote (fst kv)
                           ++ (if compact then ":" else ": ")
                           ++ stringify gap inner (snd kv)) props)
      ++ closing ++ "}"
  end.

Fixpoint spaces (n : nat) : string :=
  match n with
  | O => EmptyString
  | S n' => String " " (spaces n')
  end.

Definition JSON_stringify_impl (v : value) (space : Z) : string :=
  stringify (spaces (Z.to_nat (Z.min space 10))) EmptyString v.

Definition is_ws (c : ascii) : bool :=
  (code c =? 32) || (code c =? 9) || (code c =? 10) || (code c =? 13).

Fixpoint skip_ws (s : list ascii) : list ascii :=
  match s with
  | c :: r => if is_ws c then skip_ws r else s
  | [] => []
  end.

Fixpoint strip_prefix (p : string) (s : list ascii) : option (list ascii) :=
  match p, s with
  | EmptyString, _ => Some s
  | String a p', c :: s' => if Ascii.eqb a c then strip_prefix p' s' else None
  | String _ _, [] => None
  end.

Definition hex_value (c : ascii) : option Z :=
  let n := code c in
  if (48 <=? n) && (n <=? 57) then Some (n - 48)
  else if (97 <=? n) && (n <=? 102) then Some (n - 87)
  else if (65 <=? n) && (n <=? 70) then Some (n - 55)
  else None.

(** The characters of a string literal after its opening quote. *)
Fixpoint parse_chars (s : list ascii) (acc : list ascii)
  : option (string * list ascii) :=
  match s with
  | [] => None
  | c :: r =>
      if Ascii.eqb c dq then Some (string_of_list_ascii (List.rev acc), r)
      else if Ascii.eqb c backslash then
        match r with
        | e :: r' =>
            let plain (x : ascii) := parse_chars r' (x :: acc) in
            if Ascii.eqb e dq then plain dq
            else if Ascii.eqb e backslash then plain backslash
            else if Ascii.eqb e "/" then plain "/"%char
            else if Ascii.eqb e "b" then plain "008"%char
            else if Ascii.eqb e "f" then plain "012"%char
            else if Ascii.eqb e "n" then plain "010"%char
            else if Ascii.eqb e "r" then plain "013"%char
            else if Ascii.eqb e "t" then plain "009"%char
            else if Ascii.eqb e "u" then
              match r' with
              | h1 :: h2 :: h3 :: h4 :: r'' =>
                  match hex_value h1, hex_value h2, hex_value h3,
                        hex_value h4 with
                  | Some 0, Some 0, Some a, Some b =>
                      parse_chars r''
                        (ascii_of_nat (Z.to_nat (16 * a + b)) :: acc)
                  | _, _, _, _ => None
                  end
              | _ => None
              end
            else None
        | [] => None
        end
      else if code c <? 32 then None
      else parse_chars r (c :: acc)
  end.

Definition is_digit (c : ascii) : bool := (48 <=? code c) && (code c <=? 57).

Fixpoint span_digits (s : list ascii) : list ascii * list ascii :=
  match s with
  | c :: r => if is_digit c then let (d, r') := span_digits r in (c :: d, r')
              else ([], s)
  | [] => ([], [])
  end.

(** A JSON number without exponent: an optional minus sign, an integer
    part without superfluous leading zero, and an optional fraction. *)
Definition parse_number (s : list ascii) : option (num * list ascii) :=
  let (neg, s1) := match s with
                   | c :: r => if Ascii.eqb c "-" then (true, r) else (false, s)
                   | [] => (false, s)
                   end in
  let (ip, s2) := span_digits s1 in
  let int_ok := match ip with
                | [] => false
                | [_] => true
                | c :: _ => negb (Ascii.eqb c "0")
                end in
  let '(fp, s3, frac_ok) :=
    match s2 with
    | c :: r => if Ascii.eqb c "."
                then let (d, r') := span_digits r in
                     (d, r', negb (Nat.eqb (length d) 0))
                else ([], s2, true)
    | [] => ([], s2, true)
    end in
  let exp_free := match s3 with
                  | c :: _ => negb (Ascii.eqb c "e" || Ascii.eqb c "E")
                  | [] => true
                  end in
  if int_ok && frac_ok && exp_free
  then match NilEmpty.uint_of_string (string_of_list_ascii ip),
             NilEmpty.uint_of_string (string_of_list_ascii fp) with
       | Some i, Some f => Some (Dec neg i f, s3)
       | _, _ => None
       end
  else None.

Fixpoint parse_value (fuel : nat) (s : list ascii)
  : option (value * list ascii) :=
  match fuel with
  | O => None
  | S fuel' =>
      match skip_ws s with
      | [] => None
      | c :: r =>
          if Ascii.eqb c dq then
            match parse_chars r [] with
            | Some (str, r') => Some (VStr str, r')
            | None => None
            end
          else if Ascii.eqb c "[" then
            match skip_ws r with
            | c' :: r' =>
                if Ascii.eqb c' "]" then Some (VArr [], r')
                else parse_items fuel' r []
            | [] => None
            end
          else if Ascii.eqb c "{" then
            match skip_ws r with
            | c' :: r' =>
                if Ascii.eqb c' "}" then Some (VObj [], r')
                else parse_members fuel' r []
            | [] => None
            end
          else if Ascii.eqb c "-" || is_digit c then
            match parse_number (c :: r) with
            | Some (n, r') => Some (VNum n, r')
            | None => None
            end
          else
            match strip_prefix "null" (c :: r), strip_prefix "true" (c :: r),
                  strip_prefix "false" (c :: r) with
            | Some r', _, _ => Some (VNull, r')
            | _, Some r', _ => Some (VBool true, r')
            | _, _, Some r' => Some (VBool false, r')
            | _, _, _ => None
            end
      end
  end
with parse_items (fuel : nat) (s : list ascii) (acc : list value)
  : option (value * list ascii) :=
  match fuel with
  | O => None
  | S fuel' =>
      match parse_value fuel' s with
      | Some (v, r) =>
          match skip_ws r with
          | c :: r' =>
              if Ascii.eqb c "," then parse_items fuel' r' (v :: acc)
              else if Ascii.eqb c "]"
              then Some (VArr (List.rev (v :: acc)), r')
              else None
          | [] => None
          end
      | None => None
      end
  end
with parse_members (fuel : nat) (s : list ascii)
    (acc : list (string * value)) : option (value * list ascii) :=
  match fuel with
  | O => None
  | S fuel' =>
      match skip_ws s with
      | c :: r =>
          if Ascii.eqb c dq then
            match parse_chars r [] with
            | Some (key, r1) =>
                match skip_ws r1 with
                | c1 :: r2 =>
                    if Ascii.eqb c1 ":" then
                      match parse_value fuel' r2 with
                      | Some (v, r3) =>
                          match skip_ws r3 with
                          | c3 :: r4 =>
                              if Ascii.eqb c3 ","
                              then parse_members fuel' r4 (obj_set key v acc)
                              else if Ascii.eqb c3 "}"
                              then Some (VObj (obj_set key v acc), r4)
                              else None
                          | [] => None
                          end
                      | None => None
                      end
                    else None
                | [] => None
                end
            | None => None
            end
          else None
      | [] => None
      end
  end.

Definition JSON_parse_impl (text : string) : option value :=
  let s := list_ascii_of_string text in
  match parse_value (2 * length s + 2) s with
  | Some (v, r) => match skip_ws r with
                   | [] => Some v
                   | _ => None
                   end
  | None => None
  end.

(** [parseInt] in radix 10 of an optional sign and the leading digits,
    after leading white space. *)
Definition parseInt_impl (x : option string) : option Z :=
  match x with
  | None => None
  | Some str =>
      let s := skip_ws (list_ascii_of_string str) in
      let (neg, s1) := match s with
                       | c :: r => if Ascii.eqb c "-" then (true, r)
                                   else if Ascii.eqb c "+" then (false, r)
                                   else (false, s)
                       | [] => (false, s)
                       end in
      let (d, _) := span_digits s1 in
      match d with
      | [] => None
      | _ =>
          match NilEmpty.uint_of_string (string_of_list_ascii d) with
          | Some u => let n := Z.of_N (N.of_uint u) in
                      Some (if neg then - n else n)
          | None => None
          end
      end
  end.

(** UTF-8 decoding of bytes that encode code points below 256; other
    sequences are left as they are. *)
Fixpoint utf8_decode (s : list ascii) : list ascii :=
  match s with
  | [] => []
  | c :: r =>
      match r with
      | c2 :: r' =>
          if ((code c =? 194) || (code c =? 195))
             && (128 <=? code c2) && (code c2 <=? 191)
          then ascii_of_nat (Z.to_nat ((code c - 192) * 64 + code c2 - 128))
               :: utf8_decode r'
          else c :: utf8_decode r
      | [] => [c]
      end
  end.

#[export] Instance engine : Engine := {|
  JSON_parse := JSON_parse_impl;
  JSON_stringify := JSON_stringify_impl;
  parseInt := parseInt_impl;
  Buffer_latin1_to_utf8 :=
    fun s => string_of_list_ascii (utf8_decode (list_ascii_of_string s));
|}.

End Exec.

(** ** Sample data, run on the executable engine *)

Module Sample.

Import Exec.

(** A record stored by an earlier send. *)
Definition first_record : value :=
  VObj [("id", VNum (of_string "1729999999999.75"));
        ("to", VStr "ann@example.org");
        ("subject", VStr "Minutes");
        ("message", VStr "See attached.");
        ("attachments", VArr [VStr "minutes.pdf"]);
        ("messageId", VStr "<1@relay>");
        ("status", VStr "sent");
        ("sent_at", VStr "2024-10-27T03:33:19.999Z")].

(** A world whose store holds that record. *)
Definition world : World :=
  {| files := {[ dbPath := JSON_stringify (VArr [first_record]) 2 ]};
     io_read := true;
     io_write := true;
     outbox := [] |}.

(** A world whose store file is not valid JSON. *)
Definition broken_world : World :=
  {| files := {[ dbPath := "[{" ]};
     io_read := true;
     io_write := true;
     outbox := [] |}.

Definition env : Env :=
  {| Date_now := of_string "1730000000000";
     Math_random := of_string "0.25";
     Date_toISOString := "2024-10-27T03:33:20.000Z";
     FROM_EMAIL := None;
     smtp_reply := fun _ => Ok "<2@relay>" |}.

Definition emailData : list (string * value) :=
  [("to", VStr "bob@example.org");
   ("subject", VStr "Report");
   ("message", VStr "Hello Bob");
   ("attachments", VArr []);
   ("messageId", VStr "<2@relay>");
   ("status", VStr "sent")].

Definition file_part (filename : string) (bytes : Z) : IncomingFile :=
  {| in_fieldname := "attachments";
     in_originalname := filename;
     in_mimetype := "application/octet-stream";
     in_size := bytes;
     in_content := EmptyString;
     in_stamp := of_string "1730000000000" |}.

(** A valid request with one attachment. *)
Definition request : SendRequest :=
  {| body_to := Some "bob@example.org";
     body_subject := Some "Report";
     body_message := Some "Hello Bob";
     parts := [file_part "report.pdf" 2048] |}.

(** A request without recipient, with an attachment of a type that the
    file filter refuses. *)
Definition request_no_to_exe : SendRequest :=
  {| body_to := None;
     body_subject := Some "Report";
     body_message := Some "Hello Bob";
     parts := [file_part "setup.exe" 2048] |}.

(** A request without recipient and without attachments. *)
Definition request_no_to : SendRequest :=
  {| body_to := None;
     body_subject := Some "Report";
     body_message := Some "Hello Bob";
     parts := [] |}.

(** A request with one attachment of 10 MB and one byte. *)
Definition request_too_large : SendRequest :=
  {| body_to := Some "bob@example.org";
     body_subject := Some "Report";
     body_message := Some "Hello Bob";
     parts := [file_part "video.zip" (10 * 1024 * 1024 + 1)] |}.

(** A page with two rendered records. *)
Definition page : Client.State :=
  {| Client.selectedFiles := [];
     Client.emailItems :=
       [{| Client.h4 := Some "Quarterly REPORT"; Client.display := "block" |};
        {| Client.h4 := Some "Minutes"; Client.display := "block" |}];
     Client.alerts := [];
     Client.fetched := [] |}.

End Sample.

(** ** Further notions: pages, files on disk, the send route, the start
    of the server *)

Section ServerNotions.
Context `{Engine}.

(** The records of a page answered by [getEmails]; none when the call
    throws or the page is not a list. *)
Definition page_records (r : result Page * World) : list value :=
  match fst r with
  | Ok pg => match pg_emails pg with
             | VArr l => l
             | _ => []
             end
  | Throw _ => []
  end.

(** Between two worlds only the store file and the outbox may differ. *)
Definition only_store_changed (w w' : World) : Prop :=
  io_read w' = io_read w
  /\ io_write w' = io_write w
  /\ forall p, p <> dbPath -> files w' !! p = files w !! p.

(** Apart from the store file, no file has appeared or changed: every
    other path is absent or holds what it held. *)
Definition leaves_no_files (w w' : World) : Prop :=
  forall p, p <> dbPath ->
            files w' !! p = None \/ files w' !! p = files w !! p.

(** The files of a request that are on disk while it is handled: every
    path other than the store is as it was in [w0], absent, or the path of
    one of [stored], written by this request. *)
Definition pending (w0 w : World) (stored : list UploadedFile) : Prop :=
  io_write w = io_write w0
  /\ forall p, p <> dbPath ->
               files w !! p = files w0 !! p
               \/ files w !! p = None
               \/ (io_write w = true /\ exists f, In f stored /\ path f = p).

(** [Array.isArray]: whether the store holds a list. *)
Definition is_array (v : value) : bool :=
  match v with
  | VArr _ => true
  | _ => false
  end.

(** The message the send handler composes for a request and its files. *)
Definition request_mail (env : Env) (req : SendRequest)
    (uploadedFiles : list UploadedFile) : MailOptions :=
  mailOptions_of env
    (default EmptyString (body_to req))
    (default EmptyString (body_subject req))
    (default EmptyString (body_message req))
    (attachments_of uploadedFiles).

(** The record data the send handler passes to [addEmail]. *)
Definition request_emailData (req : SendRequest)
    (uploadedFiles : list UploadedFile) (messageId : string)
  : list (string * value) :=
  emailData_of
    (default EmptyString (body_to req))
    (default EmptyString (body_subject req))
    (default EmptyString (body_message req))
    (attachments_of uploadedFiles) messageId.

(** What a send request hands to the transport: the message composed from
    its fields and from the entries of its stored files, one for each file
    part that carries a file name. *)
Definition route_mail (env : Env) (req : SendRequest) : MailOptions :=
  request_mail env req (map stored_file (named_parts (parts req))).

(** The record the send route stores once the transport has answered
    with [messageId]. *)
Definition route_record (env : Env) (req : SendRequest) (messageId : string)
  : list (string * value) :=
  newEmail env
    (request_emailData req (map stored_file (named_parts (parts req)))
       messageId).

(** The start of the server (server.js, lines 18-21): the store file is
    created with the empty list unless it exists. The write is not
    guarded: its error ends the process. *)
Definition initialize_database : M unit :=
  let! present := fs_existsSync dbPath in
  if negb present
  then fs_writeFileSync dbPath (JSON_stringify (VArr []) 2)
  else ret tt.

End ServerNotions.

(** The extensions the file filter accepts. *)
Definition allowed_extensions : list string :=
  ["jpg"; "jpeg"; "png"; "gif"; "pdf"; "doc"; "docx";
   "txt"; "zip"; "rar"; "xlsx"; "xls"; "ppt"; "pptx"].

(** ** Further notions of the page *)

Module ClientView.
Import Client.

(** What [handleFileSelection] compares two files by. *)
Definition file_key (file : File) : string * Z := (name file, size file).

(** No two selected files have the same name and size. *)
Definition distinct (selected : list File) : Prop :=
  NoDup (map file_key selected).

(** What [handleSearch] leaves of an item after a search for the empty
    term. *)
Definition shown_if_titled (item : EmailItem) : EmailItem :=
  {| h4 := h4 item;
     display := match h4 item with
                | Some _ => "block"
                | None => "none"
                end |}.

End ClientView.

Module HistoryView.

(** A Number of a JSON body as the page reads it: [JSON.stringify] writes
    Infinity and NaN as [null]. *)
Definition received (q : quotient) : option Z :=
  match q with
  | Finite z => Some z
  | Infinity | NaN => None
  end.

(** What [displayPagination] puts into the pagination element: the two
    buttons with the page their [onclick] loads, and the page info. *)
Inductive PaginationElement :=
| PrevButton (page : Z)
| PageInfo (currentPage totalPages : Z)
| NextButton (page : Z).

(** [displayPagination]; [None] is a body without [pagination]. A total
    that arrives as [null] passes the test [null <= 1]. *)
Definition displayPagination (pagination : option Pagination)
  : list PaginationElement :=
  match pagination with
  | None => []
  | Some pagination =>
      match received (totalPages pagination) with
      | None => []
      | Some total =>
          if total <=? 1 then []
          else
            (if 1 <? currentPage pagination
             then [PrevButton (currentPage pagination - 1)]
             else [])
            ++ [PageInfo (currentPage pagination) total]
            ++ (if currentPage pagination <? total
                then [NextButton (currentPage pagination + 1)]
                else [])
      end
  end.

Section Labels.
Context `{Engine}.

(** [att.filename || 'Unknown'] of [displayEmails], for an element of
    [email.attachments]: reading a property of [null] is a TypeError, of a
    string, number, boolean or array it is [undefined]. The result is the
    value that the template then turns into text. *)
Definition attachment_label (att : value) : result value :=
  match att with
  | VNull => Throw TypeError
  | VObj props =>
      match own_property "filename" props with
      | Some filename =>
          if ToBoolean filename then Ok filename else Ok (VStr "Unknown")
      | None => Ok (VStr "Unknown")
      end
  | _ => Ok (VStr "Unknown")
  end.

End Labels.

End HistoryView.

(** ** The history list of the page ([displayEmails], part_000 lines
    211-245) *)

(** The texts that the template of [displayEmails] interpolates for one
    record, in the order of the template. The date,
    [new Date(email.sent_at).toLocaleString()], is text without markup
    whatever the record holds, and is left out. *)
Record ItemTexts := {
  t_heading : string;
    (* email.subject || 'No Subject' *)
  t_to : string;
    (* email.to *)
  t_preview : string;
    (* the first 150 characters of email.message || '', and the dots *)
  t_attachments : option (nat * string);
    (* email.attachments.length and the joined names; None when the
       template interpolates '' *)
  t_id : string;
    (* email.id *)
}.

(** A character that the HTML parser does not take as text: the start of
    a tag or of a character reference, NUL (dropped) and CR (turned into
    LF). *)
Definition markup_char (c : ascii) : bool :=
  Ascii.eqb c "<" || Ascii.eqb c "&" || (code c =? 0) || (code c =? 13).

Definition markup_free (s : string) : bool :=
  forallb (fun c => negb (markup_char c)) (list_ascii_of_string s).

Definition texts_markup_free (t : ItemTexts) : bool :=
  markup_free (t_heading t)
  && markup_free (t_to t)
  && markup_free (t_preview t)
  && match t_attachments t with
     | Some (_, names) => markup_free names
     | None => true
     end
  && markup_free (t_id t).

(** What the page takes from the browser.
    - [number_positive n] is [n > 0] on Numbers.
    - [email_item_elements t] are the elements of class [email-item] that
      [document.querySelectorAll] finds in the element that
      [displayEmails] builds from its template with the interpolated
      texts [t]: the element itself and whatever elements of that class
      the texts bring along as markup; each is given by the
      [textContent] of its first [h4], if it has one. *)
Class Browser `{Numbers} := {
  number_positive : number -> bool;
  email_item_elements : ItemTexts -> list (option string);
}.

(** What HTML parsing guarantees for texts without markup: the template
    gives one element, whose first [h4] holds the heading as its text. *)
Class BrowserLaws `{Browser} : Prop := {
  email_item_elements_plain :
    forall t, texts_markup_free t = true ->
              email_item_elements t = [Some (t_heading t)];
}.

Module Rendering.
Import Client.

Section Items.
Context `{Engine} `{!Browser}.








(** [l.join(', ')] on strings. *)
Fixpoint join (l : list string) : string :=
  match l with
  | [] => EmptyString
  | [s] => s
  | s :: l' => s ++ ", " ++ join l'
  end.






(** ** Notions used in the statement of C8 *)



End Items.




Section Claim.
Context `{Engine} `{!Browser}.


End Claim.

End Rendering.

(** ** An executable browser *)

Module ExecBrowser.
Import Exec.

Definition num_positive (n : num) : bool :=
  match n with
  | NotANumber => false
  | Dec neg _ _ => negb neg && num_truthy n
  end.

(** A browser that is given texts without markup only: for these, the
    template yields one element, whose heading is the text. It does not
    parse markup. *)
#[export] Instance browser : Browser := {|
  number_positive := num_positive;
  email_item_elements := fun t => [Some (t_heading t)];
|}.

End ExecBrowser.

(** ** Further sample data *)

Module Scenario.
Import Exec ExecBrowser.

(** An environment whose SMTP relay refuses every message. *)
Definition failing_env : Env :=
  {| Date_now := of_string "1730000000000";
     Math_random := of_string "0.25";
     Date_toISOString := "2024-10-27T03:33:20.000Z";
     FROM_EMAIL := None;
     smtp_reply := fun _ => Throw (SMTPError "connect ECONNREFUSED") |}.

(** A record stored by a later send. *)
Definition second_record : value :=
  VObj [("id", VNum (of_string "1730000000001.5"));
        ("to", VStr "carol@example.org");
        ("subject", VStr "Agenda");
        ("message", VStr "See you on Monday.");
        ("attachments", VArr []);
        ("messageId", VStr "<3@relay>");
        ("status", VStr "sent");
        ("sent_at", VStr "2024-10-27T03:33:21.001Z")].

(** A world whose store holds two records. *)
Definition two_records_world : World :=
  {| files :=
       {[ dbPath :=
            JSON_stringify (VArr [Sample.first_record; second_record]) 2 ]};
     io_read := true;
     io_write := true;
     outbox := [] |}.

(** A world whose store file holds a JSON object. *)
Definition object_world : World :=
  {| files := {[ dbPath := "{}" ]};
     io_read := true;
     io_write := true;
     outbox := [] |}.

(** The sample store on a file system that refuses every write. *)
Definition readonly_world : World :=
  {| files := files Sample.world;
     io_read := true;
     io_write := false;
     outbox := [] |}.

(** A world without store file. *)
Definition fresh_world : World :=
  {| files := empty;
     io_read := true;
     io_write := true;
     outbox := [] |}.

(** A valid request with one attachment of exactly 10 MB. *)
Definition request_at_limit : SendRequest :=
  {| body_to := Some "bob@example.org";
     body_subject := Some "Report";
     body_message := Some "Hello Bob";
     parts := [Sample.file_part "video.zip" (10 * 1024 * 1024)] |}.

(** A valid request with an attachment and the part of a file input that
    was left empty. *)
Definition request_with_blank : SendRequest :=
  {| body_to := Some "bob@example.org";
     body_subject := Some "Report";
     body_message := Some "Hello Bob";
     parts := [Sample.file_part "report.pdf" 2048;
               Sample.file_part EmptyString 0] |}.

(** A valid request without attachments. *)
Definition plain_request : SendRequest :=
  {| body_to := Some "bob@example.org";
     body_subject := Some "Report";
     body_message := Some "Hello Bob";
     parts := [] |}.



(** Two files offered to the page, the second above the size limit. *)
Definition notes : Client.File :=
  {| Client.name := "notes.txt"; Client.size := 1024 |}.

Definition video : Client.File :=
  {| Client.name := "video.zip"; Client.size := 20 * 1024 * 1024 |}.

End Scenario.

(** * Properties *)

(** ** The matcher decides the words of a regular expression *)

Section RegexFacts.

Lemma nullable_spec (r : regex) : nullable r = true <-> Matches r [].
Proof.
  split.
  - induction r as [| |p|r1 IH1 r2 IH2|r1 IH1 r2 IH2|r IH]; cbn;
      intros Hn; try discriminate.
    + constructor.
    + apply andb_prop in Hn as [H1 H2].
      apply (MCat r1 r2 [] []); auto.
    + apply orb_prop in Hn as [H1 | H2];
        [apply MAltL | apply MAltR]; auto.
    + constructor.
  - intros Hm. remember [] as s eqn:Hs.
    induction Hm as [|p c Hp|r1 r2 s1 s2 _ IH1 _ IH2|r1 r2 s _ IH
                    |r1 r2 s _ IH|r|r s1 s2 _ _ _ _]; cbn;
      try reflexivity; try discriminate.
    + apply app_eq_nil in Hs as [-> ->]. rewrite IH1, IH2; reflexivity.
    + rewrite IH by assumption. reflexivity.
    + rewrite IH by assumption. apply orb_true_r.
Qed.

Lemma Matches_star_cons (r : regex) (c : ascii) (s : list ascii) :
  Matches (Star r) (c :: s) ->
  exists s1 s2, s = (s1 ++ s2)%list /\ Matches r (c :: s1)
                /\ Matches (Star r) s2.
Proof.
  intros Hm. remember (Star r) as r' eqn:Hr. remember (c :: s) as s' eqn:Hs.
  induction Hm as [| | | | | |r0 s1 s2 Hm1 _ Hm2 IH2]; try discriminate.
  injection Hr as ->. destruct s1 as [|c1 s1].
  - apply IH2; [reflexivity | exact Hs].
  - cbn in Hs. injection Hs as -> <-. eauto.
Qed.

Lemma Matches_cat_inv (r1 r2 : regex) (s : list ascii) :
  Matches (Cat r1 r2) s ->
  exists s1 s2, s = (s1 ++ s2)%list /\ Matches r1 s1 /\ Matches r2 s2.
Proof. intros Hm. inversion Hm; subst. eauto. Qed.

Lemma deriv_spec (c : ascii) (r : regex) :
  forall s, Matches (deriv c r) s <-> Matches r (c :: s).
Proof.
  induction r as [| |p|r1 IH1 r2 IH2|r1 IH1 r2 IH2|r IH]; intros s; cbn.
  - split; intros Hm; inversion Hm.
  - split; intros Hm; inversion Hm.
  - destruct (p c) eqn:Hp; split; intros Hm; inversion Hm; subst.
    + constructor. exact Hp.
    + constructor.
    + congruence.
  - assert (Hcat : Matches (Cat (deriv c r1) r2) s ->
                   Matches (Cat r1 r2) (c :: s)).
    { intros Hm.
      apply Matches_cat_inv in Hm as (s1 & s2 & -> & H1 & H2).
      apply IH1 in H1. apply (MCat r1 r2 (c :: s1) s2); assumption. }
    assert (Hinv : Matches (Cat r1 r2) (c :: s) ->
                   Matches (Cat (deriv c r1) r2) s
                   \/ (Matches r1 [] /\ Matches (deriv c r2) s)).
    { intros Hm.
      apply Matches_cat_inv in Hm as (s1 & s2 & Heq & H1 & H2).
      destruct s1 as [|c1 s1].
      - cbn in Heq. subst s2. right.
        split; [exact H1 | apply IH2; exact H2].
      - cbn in Heq. injection Heq as <- ->. left.
        apply MCat; [apply IH1; exact H1 | exact H2]. }
    destruct (nullable r1) eqn:Hn.
    + split.
      * intros Hm. inversion Hm as [| | |? ? ? H1|? ? ? H2| |]; subst.
        -- apply Hcat. exact H1.
        -- apply (MCat r1 r2 [] (c :: s));
             [apply nullable_spec; exact Hn | apply IH2; exact H2].
      * intros Hm. destruct (Hinv Hm) as [H1 | [_ H2]];
          [apply MAltL | apply MAltR]; assumption.
    + split; [exact Hcat|].
      intros Hm. destruct (Hinv Hm) as [H1 | [H0 _]]; [exact H1|].
      apply nullable_spec in H0. congruence.
  - split; intros Hm; inversion Hm; subst;
      solve [apply MAltL; apply IH1; assumption
            |apply MAltR; apply IH2; assumption].
  - split.
    + intros Hm.
      apply Matches_cat_inv in Hm as (s1 & s2 & -> & H1 & H2).
      apply IH in H1. apply (MStarS r (c :: s1) s2); assumption.
    + intros Hm. apply Matches_star_cons in Hm as (s1 & s2 & -> & H1 & H2).
      apply MCat; [apply IH; exact H1 | exact H2].
Qed.

Lemma matches_spec (r : regex) (s : list ascii) :
  matches r s = true <-> Matches r s.
Proof.
  revert r. induction s as [|c s IH]; intros r; cbn.
  - apply nullable_spec.
  - rewrite IH. apply deriv_spec.
Qed.

Lemma Matches_star_class (p : ascii -> bool) (s : list ascii) :
  Matches (Star (OneOf p)) s <-> Forall (fun c => p c = true) s.
Proof.
  split.
  - intros Hm. remember (Star (OneOf p)) as r eqn:Hr.
    induction Hm as [| | | | | |r0 s1 s2 Hm1 _ Hm2 IH2]; try discriminate.
    + constructor.
    + injection Hr as ->. inversion Hm1; subst.
      constructor; [assumption | apply IH2; reflexivity].
  - induction 1 as [|c s Hc _ IH]; [constructor|].
    apply (MStarS (OneOf p) [c] s); [constructor; exact Hc | exact IH].
Qed.

Lemma Matches_plus_class (p : ascii -> bool) (s : list ascii) :
  Matches (Plus (OneOf p)) s <-> s <> [] /\ Forall (fun c => p c = true) s.
Proof.
  unfold Plus. split.
  - intros Hm. apply Matches_cat_inv in Hm as (s1 & s2 & -> & H1 & H2).
    inversion H1; subst. apply Matches_star_class in H2.
    split; [discriminate | constructor; assumption].
  - intros [Hne Hall]. destruct Hall as [|c s Hc Hall]; [contradiction|].
    apply (MCat (OneOf p) (Star (OneOf p)) [c] s);
      [constructor; exact Hc | apply Matches_star_class; exact Hall].
Qed.

(** X1. The pattern of the send handler accepts exactly the strings
    [a@b.c] in which [a], [b] and [c] are not empty and hold neither white
    space nor [@]. *)
Lemma emailRegex_spec (s : string) :
  RegExp_test emailRegex s = true
  <-> exists a b c : list ascii,
        list_ascii_of_string s = (a ++ "@"%char :: b ++ "."%char :: c)%list
        /\ a <> [] /\ b <> [] /\ c <> []
        /\ Forall (fun x => is_space x = false /\ x <> "@"%char) (a ++ b ++ c).
Proof.
  assert (Hcls : forall x,
             negb (is_space x) && negb (Ascii.eqb x "@") = true
             <-> is_space x = false /\ x <> "@"%char).
  { intros x. rewrite andb_true_iff, !negb_true_iff.
    rewrite <- (not_true_iff_false (Ascii.eqb x "@")), Ascii.eqb_eq.
    reflexivity. }
  unfold RegExp_test, emailRegex, not_space_at, chr.
  rewrite matches_spec. split.
  - intros Hm.
    apply Matches_cat_inv in Hm as (a & s1 & Hs & Ha & H1).
    apply Matches_cat_inv in H1 as (at_ & s2 & -> & Hat & H2).
    apply Matches_cat_inv in H2 as (b & s3 & -> & Hb & H3).
    apply Matches_cat_inv in H3 as (dot & c & -> & Hdot & Hc).
    inversion Hat as [|? x Hx| | | | |]; subst at_.
    apply Ascii.eqb_eq in Hx. subst x.
    inversion Hdot as [|? y Hy| | | | |]; subst dot.
    apply Ascii.eqb_eq in Hy. subst y.
    apply Matches_plus_class in Ha as [Hane Ha], Hb as [Hbne Hb],
                                     Hc as [Hcne Hc].
    exists a, b, c. split; [exact Hs|]. repeat split; try assumption.
    rewrite !Forall_app. repeat split;
      (eapply Forall_impl; [eassumption | intros x Hx; apply Hcls; exact Hx]).
  - intros (a & b & c & -> & Hane & Hbne & Hcne & Hall).
    rewrite !Forall_app in Hall. destruct Hall as (Ha & Hb & Hc).
    assert (Hplus : forall l,
               l <> [] ->
               Forall (fun x => is_space x = false /\ x <> "@"%char) l ->
               Matches
                 (Plus (OneOf (fun c => negb (is_space c)
                                        && negb (Ascii.eqb c "@")))) l).
    { intros l Hne Hl. apply Matches_plus_class. split; [exact Hne|].
      eapply Forall_impl; [exact Hl | intros x Hx; apply Hcls; exact Hx]. }
    apply MCat; [apply Hplus; assumption|].
    apply (MCat _ _ ["@"%char]); [constructor; apply Ascii.eqb_refl|].
    apply MCat; [apply Hplus; assumption|].
    apply (MCat _ _ ["."%char]); [constructor; apply Ascii.eqb_refl|].
    apply Hplus; assumption.
Qed.

(** The two patterns on a few strings. *)
Example emailRegex_accepts :
  RegExp_test emailRegex "john.doe@mail.example.com" = true.
Proof. reflexivity. Qed.

Example emailRegex_needs_dot : RegExp_test emailRegex "john@localhost" = false.
Proof. reflexivity. Qed.

Example emailRegex_refuses_space :
  RegExp_test emailRegex "john doe@example.com" = false.
Proof. reflexivity. Qed.

Example emailRegex_refuses_second_at :
  RegExp_test emailRegex "john@doe@example.com" = false.
Proof. reflexivity. Qed.

Example allowedTypes_ignores_case :
  RegExp_test allowedTypes "Scan.JPG" = true.
Proof. reflexivity. Qed.

Example allowedTypes_anchored_at_end :
  RegExp_test allowedTypes "notes.txt.exe" = false.
Proof. reflexivity. Qed.

End RegexFacts.

Ltac run_monad :=
  unfold bind, ret, throw, lift, try_catch, JSON_parse_M,
    fs_readFileSync, fs_writeFileSync, fs_existsSync, fs_unlinkSync in *.

Section ServerFacts.
Context `{Engine}.

Lemma readDatabase_eq (w : World) : readDatabase w = (Ok (db_value w), w).
Proof.
  unfold readDatabase, db_value. run_monad.
  destruct (io_read w); [|reflexivity].
  destruct (files w !! dbPath) as [data|]; [|reflexivity].
  destruct (JSON_parse data); reflexivity.
Qed.

Lemma writeDatabase_eq (data : value) (w : World) :
  writeDatabase data w =
  if io_write w
  then (Ok true, set_files w (<[dbPath := JSON_stringify data 2]> (files w)))
  else (Ok false, w).
Proof.
  unfold writeDatabase. run_monad. destruct (io_write w); reflexivity.
Qed.

Lemma addEmail_array (env : Env) (emailData : list (string * value))
    (w : World) (items : list value) :
  db_value w = VArr items ->
  addEmail env emailData w =
  (Ok (own_property "id" (newEmail env emailData)),
   if io_write w
   then set_files w
          (<[dbPath := JSON_stringify
                         (VArr (VObj (newEmail env emailData) :: items)) 2]>
             (files w))
   else w).
Proof.
  intros Hdb. unfold addEmail, bind at 1. rewrite readDatabase_eq, Hdb.
  unfold bind. rewrite writeDatabase_eq.
  destruct (io_write w); reflexivity.
Qed.

(** Records with primitive ids can be compared with every string. *)
Lemma plain_records_comparable (id : string) (items : list value) :
  Forall plain_record items -> comparable id items.
Proof.
  unfold comparable. intros Hall. eapply Forall_impl; [exact Hall|].
  intros email Hplain.
  destruct email as [| | | | |props]; try contradiction.
  unfold id_eq. cbn in *.
  destruct (own_property "id" props) as [[| | | | |]|]; cbn;
    solve [exact I | contradiction].
Qed.

Lemma Array_filter_comparable (id : string) (items : list value) :
  comparable id items ->
  Array_filter (id_ne id) items =
  Ok (List.filter (fun email => negb (id_matches id email)) items).
Proof.
  induction 1 as [|x l Hx _ IH]; [reflexivity|].
  cbn [Array_filter List.filter]. rewrite IH.
  unfold id_ne, id_matches. destruct (id_eq id x) as [[|]|]; cbn in *;
    [reflexivity | reflexivity | contradiction].
Qed.

Lemma Array_find_comparable (id : string) (items : list value) :
  comparable id items ->
  Array_find (id_eq id) items = Ok (List.find (id_matches id) items).
Proof.
  induction 1 as [|x l Hx _ IH]; [reflexivity|].
  cbn [Array_find List.find]. unfold id_matches at 1.
  destruct (id_eq id x) as [[|]|]; cbn in *;
    [reflexivity | exact IH | contradiction].
Qed.

Lemma filter_length_le {A} (f : A -> bool) (l : list A) :
  (length (List.filter f l) <= length l)%nat.
Proof.
  induction l as [|x l IH]; cbn; [lia|]. destruct (f x); cbn; lia.
Qed.

Lemma filter_keeps_all {A} (f : A -> bool) (l : list A) :
  length (List.filter f l) = length l <-> List.forallb f l = true.
Proof.
  induction l as [|x l IH]; cbn; [tauto|].
  pose proof (filter_length_le f l).
  destruct (f x); cbn; [rewrite <- IH; lia | split; [lia | discriminate]].
Qed.

Lemma deleteEmailById_array (id : string) (w : World) (items : list value) :
  db_value w = VArr items ->
  comparable id items ->
  let kept := List.filter (fun email => negb (id_matches id email)) items in
  deleteEmailById id w =
  if List.existsb (id_matches id) items
  then (Ok true,
        if io_write w
        then set_files w
               (<[dbPath := JSON_stringify (VArr kept) 2]> (files w))
        else w)
  else (Ok false, w).
Proof.
  intros Hdb Hcmp kept. unfold deleteEmailById, bind at 1.
  rewrite readDatabase_eq, Hdb. unfold bind at 1, lift.
  rewrite (Array_filter_comparable _ _ Hcmp). fold kept.
  destruct (List.existsb (id_matches id) items) eqn:Hex.
  - assert (Hlen : (length items =? length kept)%nat = false).
    { apply Nat.eqb_neq. intros Heq. symmetry in Heq.
      apply filter_keeps_all in Heq.
      rewrite forallb_forall in Heq. apply existsb_exists in Hex.
      destruct Hex as (x & Hin & Hx). specialize (Heq x Hin).
      rewrite Hx in Heq. discriminate. }
    rewrite Hlen. cbn. unfold bind. rewrite writeDatabase_eq.
    destruct (io_write w); reflexivity.
  - assert (Hlen : (length items =? length kept)%nat = true).
    { apply Nat.eqb_eq. symmetry. apply filter_keeps_all.
      apply forallb_forall. intros x Hin.
      destruct (id_matches id x) eqn:Hx; [|reflexivity].
      assert (List.existsb (id_matches id) items = true)
        by (apply existsb_exists; eauto).
      congruence. }
    rewrite Hlen. reflexivity.
Qed.

Lemma getEmails_array (page limit : option Z) (w : World)
    (items : list value) :
  db_value w = VArr items ->
  getEmails page limit w =
  (Ok {| pg_emails :=
           VArr (Array_slice items
                   ((default 1 page - 1) * default 10 limit)
                   ((default 1 page - 1) * default 10 limit
                    + default 10 limit));
         pg_total := Z.of_nat (length items);
         pg_page := default 1 page;
         pg_totalPages :=
           Math_ceil_div (Z.of_nat (length items)) (default 10 limit) |}, w).
Proof.
  intros Hdb. unfold getEmails, bind. rewrite readDatabase_eq, Hdb.
  reflexivity.
Qed.

Lemma getEmailById_array (id : string) (w : World) (items : list value) :
  db_value w = VArr items ->
  getEmailById id w = (Array_find (id_eq id) items, w).
Proof.
  intros Hdb. unfold getEmailById, bind. rewrite readDatabase_eq, Hdb.
  reflexivity.
Qed.

Lemma store_unusable_empty (w : World) :
  store_unusable w -> db_value w = VArr [].
Proof.
  unfold store_unusable, db_value.
  intros [Hr | [Hf | (data & Hf & Hp)]].
  - rewrite Hr. reflexivity.
  - rewrite Hf. destruct (io_read w); reflexivity.
  - rewrite Hf, Hp. destruct (io_read w); reflexivity.
Qed.

(** ** C9: [readDatabase] never throws, and an unusable store is an
    empty history *)

(** C9. [readDatabase] returns in every world, without changing it. When
    the store file cannot be read, is missing or does not hold valid JSON,
    it returns the empty array, and then: [getEmails] returns the empty
    page with total 0, [getEmailById] finds nothing and the route answers
    404, [deleteEmailById] deletes nothing, leaves the world as it is and
    the route answers 404, and [addEmail] returns the new id and writes the
    one-record list (if the file system accepts the write). *)
Theorem readDatabase_total_empty_on_unusable_store :
  (forall w : World, exists v, readDatabase w = (Ok v, w))
  /\ (forall w : World,
        store_unusable w ->
        readDatabase w = (Ok (VArr []), w)
        /\ (forall page limit,
              getEmails page limit w =
              (Ok {| pg_emails := VArr [];
                     pg_total := 0;
                     pg_page := default 1 page;
                     pg_totalPages := Math_ceil_div 0 (default 10 limit) |},
               w))
        /\ (forall id,
              getEmailById id w = (Ok None, w)
              /\ get_api_emails_id id w =
                 (Ok {| status := 404; body := ErrorBody "Email not found" |},
                  w))
        /\ (forall id,
              deleteEmailById id w = (Ok false, w)
              /\ delete_api_emails_id id w =
                 (Ok {| status := 404; body := ErrorBody "Email not found" |},
                  w))
        /\ (forall env emailData,
              addEmail env emailData w =
              (Ok (own_property "id" (newEmail env emailData)),
               if io_write w
               then set_files w
                      (<[dbPath := JSON_stringify
                                     (VArr [VObj (newEmail env emailData)]) 2]>
                         (files w))
               else w))).
Proof.
  split.
  - intros w. exists (db_value w). apply readDatabase_eq.
  - intros w Hw. pose proof (store_unusable_empty w Hw) as Hdb.
    split; [rewrite readDatabase_eq, Hdb; reflexivity|].
    split.
    { intros page limit. rewrite (getEmails_array _ _ _ _ Hdb).
      unfold Array_slice. rewrite drop_nil, take_nil. reflexivity. }
    split.
    { intros id.
      assert (Hg : getEmailById id w = (Ok None, w))
        by (rewrite (getEmailById_array _ _ _ Hdb); reflexivity).
      split; [exact Hg|].
      unfold get_api_emails_id, try_catch, bind. rewrite Hg. reflexivity. }
    split.
    { intros id.
      assert (Hd : deleteEmailById id w = (Ok false, w)).
      { rewrite (deleteEmailById_array _ _ _ Hdb); [reflexivity|].
        constructor. }
      split; [exact Hd|].
      unfold delete_api_emails_id, try_catch, bind. rewrite Hd. reflexivity. }
    intros env emailData. apply addEmail_array. exact Hdb.
Qed.

Lemma readDatabase_inv (w w' : World) (v : value) :
  readDatabase w = (Ok v, w') -> db_value w = v.
Proof. rewrite readDatabase_eq. congruence. Qed.

(** ** C1: the file is the JSON text of the updated list *)

(** C1. In a world whose store holds a list and whose file system accepts
    the write, each of the two mutations rewrites the store file as a
    whole with the JSON text (indentation 2) of the list it has in
    memory: for [addEmail] the stored list with the new record put in,
    for [deleteEmailById] the list [filteredEmails] that its filter
    produced (when it differs in length from the stored one, which is
    when the function writes). No other file changes. *)
Theorem store_file_is_JSON_of_list_in_memory (w : World)
    (items : list value) :
  readDatabase w = (Ok (VArr items), w) ->
  io_write w = true ->
  (forall env emailData,
      exists id w',
        addEmail env emailData w = (Ok id, w')
        /\ files w' =
           <[dbPath := JSON_stringify
                         (VArr (VObj (newEmail env emailData) :: items)) 2]>
             (files w))
  /\ (forall id filteredEmails,
        Array_filter (id_ne id) items = Ok filteredEmails ->
        length filteredEmails <> length items ->
        exists w',
          deleteEmailById id w = (Ok true, w')
          /\ files w' =
             <[dbPath := JSON_stringify (VArr filteredEmails) 2]> (files w)).
Proof.
  intros Hread Hw. apply readDatabase_inv in Hread. split.
  - intros env emailData. rewrite (addEmail_array _ _ _ _ Hread), Hw.
    eexists _, _. split; reflexivity.
  - intros id filteredEmails Hfilter Hlen.
    unfold deleteEmailById, bind at 1. rewrite readDatabase_eq, Hread.
    unfold bind at 1, lift. rewrite Hfilter.
    replace (length items =? length filteredEmails)%nat with false
      by (symmetry; apply Nat.eqb_neq; congruence).
    cbn. unfold bind. rewrite writeDatabase_eq, Hw.
    eexists. split; reflexivity.
Qed.

(** ** C3: where [addEmail] puts the new record *)

(** C3, amended. [addEmail] puts the new record at the front of the
    stored list: in a world whose store holds a list, can be read and
    written, and whose engine reads the written text back as the value
    written, the list stored afterwards has the new record at index 0 and
    every previously stored record one position further, in the same
    order. *)
Theorem addEmail_puts_new_record_first (env : Env)
    (emailData : list (string * value)) (w : World) (items : list value) :
  readDatabase w = (Ok (VArr items), w) ->
  io_read w = true ->
  io_write w = true ->
  JSON_parse
    (JSON_stringify (VArr (VObj (newEmail env emailData) :: items)) 2)
  = Some (VArr (VObj (newEmail env emailData) :: items)) ->
  exists id w' items',
    addEmail env emailData w = (Ok id, w')
    /\ readDatabase w' = (Ok (VArr items'), w')
    /\ items' !! 0%nat = Some (VObj (newEmail env emailData))
    /\ (forall i : nat, items' !! S i = items !! i)
    /\ length items' = S (length items).
Proof.
  intros Hread Hr Hw Hjson. apply readDatabase_inv in Hread.
  rewrite (addEmail_array _ _ _ _ Hread), Hw.
  eexists _, _, (VObj (newEmail env emailData) :: items).
  split; [reflexivity|]. split; [|auto].
  rewrite readDatabase_eq. unfold db_value. cbn [io_read files set_files].
  rewrite Hr, lookup_insert_eq, Hjson. reflexivity.
Qed.

(** ** C4: offset-based pagination *)

Lemma Math_ceil_div_pos (a b : Z) :
  0 <= a -> 1 <= b ->
  exists t, Math_ceil_div a b = Finite t /\ (t - 1) * b < a <= t * b.
Proof.
  intros Ha Hb. unfold Math_ceil_div.
  destruct (Z.eqb_spec b 0) as [->|_]; [lia|].
  eexists. split; [reflexivity|].
  pose proof (Z.div_mod (- a) b ltac:(lia)).
  pose proof (Z.mod_pos_bound (- a) b ltac:(lia)). nia.
Qed.

Lemma Array_slice_page {A} (l : list A) (start len : Z) (i : nat) :
  0 <= start -> 0 <= len ->
  Array_slice l start (start + len) !! i =
  if decide (Z.of_nat i < len) then l !! (Z.to_nat start + i)%nat else None.
Proof.
  intros Hs Hl. unfold Array_slice, relative_index.
  destruct (Z.ltb_spec start 0); [lia|].
  destruct (Z.ltb_spec (start + len) 0); [lia|].
  rewrite lookup_take, lookup_drop.
  set (n := Z.of_nat (length l)).
  assert (Hn : 0 <= n) by (unfold n; lia).
  destruct (decide (Z.of_nat i < len)) as [Hi|Hi].
  - destruct (decide (i < Z.to_nat (Z.max (Z.min (start + len) n
                                             - Z.min start n) 0))%nat)
      as [Hin|Hin].
    + f_equal. lia.
    + symmetry. apply lookup_ge_None. fold n in Hin |- *.
      assert (n <= start + Z.of_nat i) by lia. unfold n in *. lia.
  - destruct (decide (i < Z.to_nat (Z.max (Z.min (start + len) n
                                             - Z.min start n) 0))%nat)
      as [Hin|Hin]; [lia | reflexivity].
Qed.

(** C4. For a page [p >= 1] and a limit [l >= 1] on a store that holds a
    list, [getEmails p l] returns the records at the offsets
    [(p-1)*l .. p*l-1] of the stored list (position [i] of the page is
    position [(p-1)*l + i] of the list for [i < l], and nothing beyond;
    positions past the end of the list are absent), [total] is the length
    of the list and [totalPages] is the ceiling of [total / l], the integer
    [t] with [(t-1)*l < total <= t*l]. GET /api/emails, for query
    parameters that [parseInt] reads as [p] and [l], answers 200 with that
    page, [hasNext = (p < totalPages)] and [hasPrev = (p > 1)]. *)
Theorem getEmails_offset_pagination (w : World) (items : list value)
    (p l : Z) :
  readDatabase w = (Ok (VArr items), w) ->
  1 <= p ->
  1 <= l ->
  exists page_items t,
    getEmails (Some p) (Some l) w =
    (Ok {| pg_emails := VArr page_items;
           pg_total := Z.of_nat (length items);
           pg_page := p;
           pg_totalPages := Finite t |}, w)
    /\ (forall i : nat,
          page_items !! i =
          if decide (Z.of_nat i < l)
          then items !! (Z.to_nat ((p - 1) * l) + i)%nat
          else None)
    /\ (t - 1) * l < Z.of_nat (length items) <= t * l
    /\ (forall query_page query_limit,
          parseInt query_page = Some p ->
          parseInt query_limit = Some l ->
          get_api_emails query_page query_limit w =
          (Ok {| status := 200;
                 body := EmailsBody (VArr page_items)
                           {| currentPage := p;
                              totalPages := Finite t;
                              totalEmails := Z.of_nat (length items);
                              hasNext := p <? t;
                              hasPrev := 1 <? p |} |}, w)).
Proof.
  intros Hread Hp Hl. apply readDatabase_inv in Hread.
  destruct (Math_ceil_div_pos (Z.of_nat (length items)) l) as (t & Ht & Hc);
    [lia | lia |].
  exists (Array_slice items ((p - 1) * l) ((p - 1) * l + l)), t.
  assert (Hget : getEmails (Some p) (Some l) w =
                 (Ok {| pg_emails :=
                          VArr (Array_slice items ((p - 1) * l)
                                  ((p - 1) * l + l));
                        pg_total := Z.of_nat (length items);
                        pg_page := p;
                        pg_totalPages := Finite t |}, w)).
  { rewrite (getEmails_array _ _ _ _ Hread). cbn [default from_option id].
    rewrite Ht.
    reflexivity. }
  split; [exact Hget|]. split.
  { intros i. apply Array_slice_page; nia. }
  split; [exact Hc|].
  intros query_page query_limit Hqp Hql.
  unfold get_api_emails, try_catch, bind. rewrite Hqp, Hql.
  unfold or_default.
  destruct (Z.eqb_spec p 0); [lia|]. destruct (Z.eqb_spec l 0); [lia|].
  rewrite Hget. reflexivity.
Qed.

(** What the send handler stores is a plain record. *)
Lemma sent_record_plain (env : Env) (to subject message messageId : string)
    (attachments : list Attachment) :
  plain_record
    (VObj (newEmail env
             (emailData_of to subject message attachments messageId))).
Proof. exact I. Qed.

(** ** C5: deleting by id *)

Lemma filter_sublist {A} (f : A -> bool) (l : list A) :
  sublist (List.filter f l) l.
Proof.
  induction l as [|x l IH]; cbn; [constructor|].
  destruct (f x); [apply sublist_skip | apply sublist_cons]; exact IH.
Qed.

Lemma existsb_id_matches (id : string) (items : list value) :
  List.existsb (id_matches id) items = true
  <-> Exists (fun email => id_eq id email = Ok true) items.
Proof.
  rewrite existsb_exists, Exists_exists. setoid_rewrite list_elem_of_In.
  unfold id_matches.
  split; intros (x & Hin & Hx); exists x; (split; [exact Hin|]).
  - destruct (id_eq id x) as [[|]|]; congruence.
  - rewrite Hx. reflexivity.
Qed.

Lemma keyed_record_id_eq (id : string) (email : value) :
  keyed_record email -> id_eq id email = Ok (has_id id email).
Proof.
  destruct email as [| | | | |props]; try contradiction.
  unfold keyed_record, id_eq, has_id. cbn [Get_id].
  destruct (own_property "id" props) as [[| | | | |]|]; try contradiction;
    reflexivity.
Qed.

Lemma keyed_records_filter (id : string) (items : list value) :
  Forall keyed_record items ->
  comparable id items
  /\ List.filter (fun email => negb (id_matches id email)) items
     = List.filter (fun email => negb (has_id id email)) items
  /\ List.existsb (id_matches id) items = List.existsb (has_id id) items.
Proof.
  induction 1 as [|email items Hk _ (IHc & IHf & IHe)].
  - split; [constructor | split; reflexivity].
  - pose proof (keyed_record_id_eq id email Hk) as Heq.
    assert (Hm : id_matches id email = has_id id email).
    { unfold id_matches. rewrite Heq. destruct (has_id id email);
        reflexivity. }
    split; [constructor; [rewrite Heq; exact I | exact IHc]|].
    cbn [List.filter List.existsb]. rewrite Hm, IHf, IHe. auto.
Qed.

(** C5. On a store that holds a list of records, each without id or with
    a Number or String id, and a file system that accepts the write: if
    some stored record has the given id, DELETE /api/emails/:id answers
    200 and the store file becomes the JSON text of the stored list
    without the records that have the given id, the others in their
    order; if none has it, the route answers 404 and the world is
    unchanged. Which records have the given id is stated by [has_id], not
    by the comparison the code makes. *)
Theorem delete_removes_exactly_matching_records (w : World)
    (items : list value) (id : string) :
  readDatabase w = (Ok (VArr items), w) ->
  Forall keyed_record items ->
  io_write w = true ->
  let kept := List.filter (fun email => negb (has_id id email)) items in
  (Exists (fun email => has_id id email = true) items ->
   exists w',
     delete_api_emails_id id w =
     (Ok {| status := 200; body := MessageBody "Email deleted successfully" |},
      w')
     /\ files w' = <[dbPath := JSON_stringify (VArr kept) 2]> (files w)
     /\ sublist kept items
     /\ (forall email,
           In email kept <-> In email items /\ has_id id email = false))
  /\ (~ Exists (fun email => has_id id email = true) items ->
      delete_api_emails_id id w =
      (Ok {| status := 404; body := ErrorBody "Email not found" |}, w)).
Proof.
  intros Hread Hkeyed Hw kept. apply readDatabase_inv in Hread.
  destruct (keyed_records_filter id items Hkeyed) as (Hcmp & Hfilter & Hany).
  pose proof (deleteEmailById_array id w items Hread Hcmp) as Hdel.
  cbn zeta in Hdel. rewrite Hfilter, Hany in Hdel. fold kept in Hdel.
  assert (Hex : Exists (fun email => has_id id email = true) items
                <-> List.existsb (has_id id) items = true).
  { rewrite existsb_exists, Exists_exists.
    setoid_rewrite list_elem_of_In. reflexivity. }
  split.
  - intros Hsome. apply Hex in Hsome. rewrite Hsome, Hw in Hdel.
    eexists. split.
    { unfold delete_api_emails_id, try_catch, bind. rewrite Hdel.
      reflexivity. }
    split; [reflexivity|]. split; [apply filter_sublist|].
    intros email. unfold kept. rewrite filter_In, negb_true_iff.
    reflexivity.
  - intros Hnone. rewrite Hex in Hnone.
    apply not_true_is_false in Hnone. rewrite Hnone in Hdel.
    unfold delete_api_emails_id, try_catch, bind. rewrite Hdel. reflexivity.
Qed.

End ServerFacts.

Section LooseEquality.
Context `{Engine} `{!NumbersLaws}.

(** ** C10: ids are compared with [==] *)

Lemma id_eq_true_object (id : string) (email : value) :
  id_eq id email = Ok true -> exists props, email = VObj props.
Proof.
  unfold id_eq. destruct email; cbn; try discriminate; eauto.
Qed.

Lemma id_eq_decimal_string (email : value) (n : number) :
  Get_id email = Ok (Some (VNum n)) ->
  number_eqb n n = true ->
  id_eq (Number_toString n) email = Ok true.
Proof.
  intros Hget Hn. unfold id_eq. rewrite Hget. cbn.
  rewrite StringToNumber_toString; auto.
Qed.


End LooseEquality.

Section UploadFacts.
Context `{Engine}.

(** ** Uploads never touch the store file *)

Lemma same_store_refl (w : World) : same_store w w.
Proof. unfold same_store. auto. Qed.

Lemma same_store_trans (w1 w2 w3 : World) :
  same_store w1 w2 -> same_store w2 w3 -> same_store w1 w3.
Proof.
  unfold same_store. intros (?&?&?&?) (?&?&?&?). repeat split; congruence.
Qed.

Lemma same_store_db_value (w w' : World) :
  same_store w w' -> db_value w' = db_value w.
Proof. intros (Hf&Hr&_&_). unfold db_value. rewrite Hf, Hr. reflexivity. Qed.

Lemma storage_path_not_db (file : IncomingFile) : storage_path file <> dbPath.
Proof. unfold storage_path, uploadDir, dbPath. cbn. discriminate. Qed.

Lemma cleanupFile_same_store (filePath : string) (w : World) :
  filePath <> dbPath ->
  exists w', cleanupFile filePath w = (Ok tt, w') /\ same_store w w'.
Proof.
  intros Hne. unfold cleanupFile. run_monad.
  destruct (bool_decide (is_Some (files w !! filePath)));
    [|eexists; split; [reflexivity | apply same_store_refl]].
  destruct (io_write w);
    [|eexists; split; [reflexivity | apply same_store_refl]].
  destruct (files w !! filePath);
    [|eexists; split; [reflexivity | apply same_store_refl]].
  eexists. split; [reflexivity|].
  unfold same_store. cbn. rewrite lookup_delete_ne by exact Hne. auto.
Qed.

Lemma cleanup_same_store (fl : list UploadedFile) (w : World) :
  outside_store fl ->
  exists w',
    forEach (fun f => cleanupFile (path f)) fl w = (Ok tt, w')
    /\ same_store w w'.
Proof.
  intros Hfl. revert w. induction Hfl as [|f fl Hf _ IH]; intros w.
  - eexists. split; [reflexivity | apply same_store_refl].
  - destruct (cleanupFile_same_store (path f) w Hf) as (w1 & Hc & Hs1).
    destruct (IH w1) as (w2 & Hr & Hs2).
    exists w2. split; [|eapply same_store_trans; eauto].
    cbn [forEach]. unfold bind. rewrite Hc. exact Hr.
Qed.

Lemma abort_same_store {A} (stored : list UploadedFile) (e : error)
    (w : World) :
  outside_store stored ->
  exists w',
    bind (forEach (fun f => cleanupFile (path f)) stored)
      (fun _ => throw (A := A) e) w = (Throw e, w')
    /\ same_store w w'.
Proof.
  intros Hs. destruct (cleanup_same_store stored w Hs) as (w' & Hc & Hsame).
  exists w'. split; [|exact Hsame]. unfold bind, throw. rewrite Hc.
  reflexivity.
Qed.

Lemma storage_handleFile_eq (file : IncomingFile) (w : World) :
  storage_handleFile file w =
  if io_write w
  then (Ok None,
        set_files w (<[storage_path file := in_content file]> (files w)))
  else (Ok (Some (EACCES (storage_path file))), w).
Proof.
  unfold storage_handleFile. run_monad. destruct (io_write w); reflexivity.
Qed.

Lemma bind_storage_handleFile {A} (file : IncomingFile)
    (k : option error -> M A) (w : World) :
  bind (storage_handleFile file) k w =
  if io_write w
  then k None
         (set_files w (<[storage_path file := in_content file]> (files w)))
  else k (Some (EACCES (storage_path file))) w.
Proof.
  unfold bind. rewrite storage_handleFile_eq. destruct (io_write w);
    reflexivity.
Qed.

Lemma named_parts_cons (file : IncomingFile) (parts : list IncomingFile) :
  named_parts (file :: parts) =
  if unnamed file then named_parts parts else file :: named_parts parts.
Proof. unfold named_parts. cbn [List.filter]. destruct (unnamed file);
  reflexivity. Qed.

Lemma passes_from_skip (field : string) (maxCount seen n : Z)
    (file : IncomingFile) (parts : list IncomingFile) (w : World) :
  seen < files_limit ->
  unnamed file = true ->
  passes_from field maxCount seen n (file :: parts) w
  <-> passes_from field maxCount (seen + 1) n parts w.
Proof.
  intros Hseen Hun. unfold passes_from.
  rewrite named_parts_cons, Hun. cbn [length].
  split; intros (Hall & Hfiles & Hstored);
    (split; [exact Hall|]; split; [|exact Hstored]).
  - intros _. specialize (Hfiles ltac:(discriminate)). lia.
  - intros _. destruct parts as [|file' parts']; [cbn [length]; lia|].
    specialize (Hfiles ltac:(discriminate)). lia.
Qed.

Lemma passes_from_store (field : string) (maxCount seen n : Z)
    (file : IncomingFile) (parts : list IncomingFile) (w w1 : World) :
  seen < files_limit ->
  n < maxCount ->
  unnamed file = false ->
  acceptable field file = true ->
  io_write w = true ->
  io_write w1 = true ->
  passes_from field maxCount seen n (file :: parts) w
  <-> passes_from field maxCount (seen + 1) (n + 1) parts w1.
Proof.
  intros Hseen Hn Hun Hacc Hw Hw1. unfold passes_from.
  rewrite named_parts_cons, Hun. cbn [length].
  split; intros (Hall & Hfiles & Hstored).
  - split; [inversion Hall; assumption|]. split.
    + intros _. specialize (Hfiles ltac:(discriminate)). lia.
    + intros _. destruct (Hstored ltac:(discriminate)) as [Hb _].
      split; [lia | exact Hw1].
  - split; [constructor; assumption|]. split.
    + intros _. destruct parts as [|file' parts']; [cbn [length]; lia|].
      specialize (Hfiles ltac:(discriminate)). lia.
    + intros _. split; [|exact Hw].
      destruct (named_parts parts) as [|file' named'] eqn:Hnamed;
        [cbn [length]; lia|].
      destruct (Hstored ltac:(discriminate)) as [Hb _]. lia.
Qed.

(** The upload middleware, characterised: it accepts exactly the requests
    that satisfy [passes_from], answers with one entry per named part in
    the order of the parts, and in either case leaves the store file and
    the outbox alone. *)
Lemma multer_spec (field : string) (maxCount : Z)
    (parts : list IncomingFile) :
  forall (seen n : Z) (stored : list UploadedFile) (w : World),
    outside_store stored ->
    exists w',
      same_store w w'
      /\ ((passes_from field maxCount seen n parts w
           /\ multer field maxCount seen n stored parts w =
              (Ok (stored ++ map stored_file (named_parts parts))%list, w'))
          \/ (~ passes_from field maxCount seen n parts w
              /\ exists e,
                   multer field maxCount seen n stored parts w
                   = (Throw e, w'))).
Proof.
  induction parts as [|file parts' IH]; intros seen n stored w Hstored.
  - exists w. split; [apply same_store_refl|]. left. split.
    + split; [constructor|]. split; intros Hne; contradiction Hne;
        reflexivity.
    + cbn. rewrite app_nil_r. reflexivity.
  - cbn [multer].
    assert (Hrefuse : forall e,
               ~ passes_from field maxCount seen n (file :: parts') w ->
               exists w',
                 same_store w w'
                 /\ ((passes_from field maxCount seen n (file :: parts') w
                      /\ bind (forEach (fun f => cleanupFile (path f)) stored)
                           (fun _ => throw (A := list UploadedFile) e) w
                         = (Ok (stored
                                ++ map stored_file
                                     (named_parts (file :: parts')))%list,
                            w'))
                     \/ (~ passes_from field maxCount seen n
                             (file :: parts') w
                         /\ exists e',
                              bind (forEach (fun f => cleanupFile (path f))
                                      stored)
                                (fun _ => throw (A := list UploadedFile) e) w
                              = (Throw e', w')))).
    { intros e Hnot.
      destruct (abort_same_store (A := list UploadedFile) stored e w Hstored)
        as (w' & Hab & Hs).
      exists w'. split; [exact Hs|]. right. split; [exact Hnot | eauto]. }
    destruct (Z.leb_spec files_limit seen) as [Hfl|Hfl].
    { apply Hrefuse. intros (_ & Hfiles & _).
      specialize (Hfiles ltac:(discriminate)). cbn [length] in Hfiles. lia. }
    destruct (unnamed file) eqn:Hun.
    { destruct (IH (seen + 1) n stored w Hstored) as (w' & Hs & Hcase).
      exists w'. split; [exact Hs|].
      rewrite named_parts_cons, Hun.
      rewrite (passes_from_skip field maxCount seen n file parts' w Hfl Hun).
      exact Hcase. }
    assert (Hhead : forall P : Prop,
               (acceptable field file = true -> P) ->
               passes_from field maxCount seen n (file :: parts') w -> P).
    { intros P HP (Hall & _). rewrite named_parts_cons, Hun in Hall.
      inversion Hall; auto. }
    destruct (String.eqb (in_fieldname file) field) eqn:Hfield; cbn [negb orb];
      [|apply Hrefuse; refine (Hhead False _); unfold acceptable;
        rewrite Hfield; discriminate].
    destruct (Z.leb_spec maxCount n) as [Hmc|Hmc].
    { apply Hrefuse. intros (_ & _ & Hst).
      rewrite named_parts_cons, Hun in Hst.
      destruct (Hst ltac:(discriminate)) as [Hb _]. cbn [length] in Hb.
      lia. }
    unfold fileFilter.
    destruct (RegExp_test allowedTypes (in_originalname file)) eqn:Htype;
      [|apply Hrefuse; refine (Hhead False _); unfold acceptable;
        rewrite Hfield, Htype; discriminate].
    destruct (Z.leb_spec fileSize (in_size file)) as [Hsz|Hsz].
    { apply Hrefuse. refine (Hhead False _). unfold acceptable.
      rewrite Hfield, Htype. cbn [andb]. intros Hlt.
      apply Z.ltb_lt in Hlt. lia. }
    assert (Hacc : acceptable field file = true).
    { unfold acceptable. rewrite Hfield, Htype. cbn [andb].
      apply Z.ltb_lt. exact Hsz. }
    rewrite bind_storage_handleFile.
    destruct (io_write w) eqn:Hw.
    + set (w1 := set_files w
                   (<[storage_path file := in_content file]> (files w))).
      assert (Hs1 : same_store w w1).
      { unfold same_store, w1. cbn.
        rewrite lookup_insert_ne by apply storage_path_not_db. auto. }
      assert (Hstored1 : outside_store (stored ++ [stored_file file])%list).
      { apply Forall_app. split; [exact Hstored|].
        constructor; [apply storage_path_not_db | constructor]. }
      destruct (IH (seen + 1) (n + 1) (stored ++ [stored_file file])%list w1
                  Hstored1)
        as (w' & Hs & Hcase).
      exists w'. split; [eapply same_store_trans; eauto|].
      rewrite named_parts_cons, Hun. cbn [map].
      rewrite (passes_from_store field maxCount seen n file parts' w w1
                 Hfl Hmc Hun Hacc Hw Hw).
      rewrite <- app_assoc in Hcase. exact Hcase.
    + apply Hrefuse. intros (_ & _ & Hst).
      rewrite named_parts_cons, Hun in Hst.
      destruct (Hst ltac:(discriminate)) as [_ Hc]. congruence.
Qed.

Lemma post_api_send_email_eq (env : Env) (req : SendRequest) (w : World) :
  post_api_send_email env req w =
  match upload_array "attachments" 5 (parts req) w with
  | (Ok uploadedFiles, w1) => send_email env req uploadedFiles w1
  | (Throw e, w1) => (Ok (express_error e), w1)
  end.
Proof.
  unfold post_api_send_email, bind, try_catch, ret.
  destruct (upload_array "attachments" 5 (parts req) w) as [[fl|e] w1];
    reflexivity.
Qed.

Lemma send_email_invalid (env : Env) (req : SendRequest)
    (uploadedFiles : list UploadedFile) (w : World) :
  invalid_fields req = true ->
  outside_store uploadedFiles ->
  exists r w',
    send_email env req uploadedFiles w = (Ok r, w')
    /\ status r = 400
    /\ same_store w w'.
Proof.
  intros Hinv Hout. unfold invalid_fields in Hinv.
  destruct (cleanup_same_store uploadedFiles w Hout) as (w' & Hc & Hs).
  unfold send_email, try_catch.
  destruct (missing (body_to req) || missing (body_subject req)
            || missing (body_message req)) eqn:Hmiss.
  - unfold bind. rewrite Hc. eexists _, w'. split; [reflexivity|]. auto.
  - cbn in Hinv. rewrite Hinv. unfold bind. rewrite Hc.
    eexists _, w'. split; [reflexivity|]. auto.
Qed.

Lemma send_email_valid (env : Env) (req : SendRequest)
    (uploadedFiles : list UploadedFile) (w : World) (items : list value)
    (to subject message messageId : string) :
  body_to req = Some to ->
  body_subject req = Some subject ->
  body_message req = Some message ->
  invalid_fields req = false ->
  outside_store uploadedFiles ->
  db_value w = VArr items ->
  io_write w = true ->
  smtp_reply env
    (mailOptions_of env to subject message (attachments_of uploadedFiles))
  = Ok messageId ->
  let emailData := emailData_of to subject message
                     (attachments_of uploadedFiles) messageId in
  exists w',
    send_email env req uploadedFiles w =
    (Ok {| status := 200;
           body := SentBody (own_property "id" (newEmail env emailData))
                     messageId |}, w')
    /\ files w' !! dbPath =
       Some (JSON_stringify (VArr (VObj (newEmail env emailData) :: items)) 2)
    /\ outbox w' =
       (outbox w
        ++ [mailOptions_of env to subject message
              (attachments_of uploadedFiles)])%list.
Proof.
  intros Hto Hsub Hmsg Hinv Hout Hdb Hw Hsmtp emailData.
  unfold invalid_fields in Hinv. apply orb_false_elim in Hinv as [Hmiss Hre].
  apply negb_false_iff in Hre. rewrite Hto in Hre.
  cbn [default from_option id] in Hre.
  unfold send_email, try_catch. rewrite Hmiss, Hto, Hsub, Hmsg.
  cbn [default from_option id]. rewrite Hre. cbn [negb].
  unfold bind at 1. unfold transporter_sendMail. rewrite Hsmtp.
  set (w2 := {| files := files w; io_read := io_read w;
                io_write := io_write w;
                outbox := (outbox w
                           ++ [mailOptions_of env to subject message
                                 (attachments_of uploadedFiles)])%list |}).
  assert (Hdb2 : db_value w2 = VArr items) by exact Hdb.
  unfold bind at 1. fold emailData.
  rewrite (addEmail_array env emailData w2 items Hdb2).
  replace (io_write w2) with true by (symmetry; exact Hw).
  set (w3 := set_files w2 _).
  destruct (cleanup_same_store uploadedFiles w3 Hout)
    as (w4 & Hc & (Hf & _ & _ & Ho)).
  unfold bind. rewrite Hc. exists w4. split; [reflexivity|].
  split.
  - rewrite Hf. unfold w3. cbn [files set_files]. apply lookup_insert_eq.
  - rewrite Ho. reflexivity.
Qed.

Lemma upload_array_spec (req : SendRequest) (w : World) :
  exists w',
    same_store w w'
    /\ ((passes_upload "attachments" 5 0 (parts req) w
         /\ upload_array "attachments" 5 (parts req) w =
            (Ok (map stored_file (named_parts (parts req))), w'))
        \/ (~ passes_upload "attachments" 5 0 (parts req) w
            /\ exists e,
                 upload_array "attachments" 5 (parts req) w = (Throw e, w'))).
Proof.
  unfold upload_array.
  destruct (multer_spec "attachments" 5 (parts req) 0 0 [] w)
    as (w' & Hs & Hcase); [constructor|].
  exists w'. split; [exact Hs|]. exact Hcase.
Qed.

Lemma stored_files_outside_store (parts : list IncomingFile) :
  outside_store (map stored_file parts).
Proof.
  unfold outside_store. apply Forall_map, Forall_forall. intros file _.
  apply storage_path_not_db.
Qed.

(** ** C2: invalid requests are not dispatched *)

(** C2, amended. A send request whose [to], [subject] or [message] is
    missing or empty, or whose [to] does not match the pattern, is never
    handed to the SMTP transport and leaves the store file as it is. It is
    answered with 400 when the upload middleware accepts its files; when
    the middleware rejects them the handler does not run and the answer is
    the one of Express's error handler for that error (status 500). *)
Theorem invalid_request_not_dispatched (env : Env) (req : SendRequest)
    (w : World) :
  invalid_fields req = true ->
  exists r w',
    post_api_send_email env req w = (Ok r, w')
    /\ outbox w' = outbox w
    /\ files w' !! dbPath = files w !! dbPath
    /\ (forall uploadedFiles w1,
          upload_array "attachments" 5 (parts req) w = (Ok uploadedFiles, w1) ->
          status r = 400)
    /\ (forall e w1,
          upload_array "attachments" 5 (parts req) w = (Throw e, w1) ->
          r = express_error e /\ status r = 500).
Proof.
  intros Hinv. rewrite post_api_send_email_eq.
  destruct (upload_array_spec req w)
    as (w1 & (Hf1 & _ & _ & Ho1) & [(_ & Hup) | (_ & e & Hup)]);
    rewrite Hup.
  - destruct (send_email_invalid env req
                (map stored_file (named_parts (parts req))) w1
                Hinv (stored_files_outside_store _))
      as (r & w' & Hrun & Hst & (Hf & _ & _ & Ho)).
    exists r, w'. split; [exact Hrun|].
    split; [congruence|]. split; [congruence|].
    split; [auto | intros ? ? Habs; discriminate].
  - exists (express_error e), w1. split; [reflexivity|].
    split; [exact Ho1|]. split; [exact Hf1|].
    split; [intros ? ? Habs; discriminate|].
    intros e' w1' Heq. inversion Heq; subst. split; reflexivity.
Qed.

(** ** C7: the limits on uploads *)

(** C7. The upload middleware accepts a send request only if it has at
    most 5 file parts; the files it hands to the handler are those of the
    parts that carry a file name, in their order: at most 5, each smaller
    than 10 MB (10*1024*1024 bytes). A request with more than 5 file
    parts, or with a named part of 10 MB or more, is rejected by the
    middleware: the route answers with the error (status 500), nothing is
    handed to the SMTP transport and the store file is unchanged. *)
Theorem upload_limits_enforced (env : Env) (req : SendRequest) (w : World) :
  (forall uploadedFiles w1,
      upload_array "attachments" 5 (parts req) w = (Ok uploadedFiles, w1) ->
      (length (parts req) <= 5)%nat
      /\ uploadedFiles = map stored_file (named_parts (parts req))
      /\ (length uploadedFiles <= 5)%nat
      /\ Forall (fun f => size f < 10 * 1024 * 1024) uploadedFiles)
  /\ ((5 < length (parts req))%nat
      \/ Exists (fun file => unnamed file = false
                             /\ 10 * 1024 * 1024 <= in_size file)
           (parts req) ->
      exists e w',
        upload_array "attachments" 5 (parts req) w = (Throw e, w')
        /\ post_api_send_email env req w = (Ok (express_error e), w')
        /\ status (express_error e) = 500
        /\ outbox w' = outbox w
        /\ files w' !! dbPath = files w !! dbPath).
Proof.
  assert (Hnamed : forall l : list IncomingFile,
             (length (named_parts l) <= length l)%nat).
  { intros l. apply filter_length_le. }
  assert (Hadm : passes_upload "attachments" 5 0 (parts req) w ->
                 (length (parts req) <= 5)%nat
                 /\ Forall (fun file => in_size file < 10 * 1024 * 1024)
                      (named_parts (parts req))).
  { intros (Hall & Hfiles & _). split.
    - destruct (parts req) as [|file l] eqn:Hparts; [cbn; lia|].
      specialize (Hfiles ltac:(discriminate)).
      unfold files_limit in Hfiles. lia.
    - eapply Forall_impl; [exact Hall|]. intros file Hacc.
      unfold acceptable in Hacc.
      apply andb_prop in Hacc as [_ Hsz]. apply Z.ltb_lt in Hsz.
      exact Hsz. }
  destruct (upload_array_spec req w)
    as (w1 & (Hf1 & _ & _ & Ho1) & [(Ha & Hup) | (Hna & e & Hup)]).
  - destruct (Hadm Ha) as [Hlen Hsz]. split.
    + intros uploadedFiles w1' Heq. rewrite Hup in Heq.
      inversion Heq; subst. split; [exact Hlen|]. split; [reflexivity|].
      split.
      * rewrite length_map. specialize (Hnamed (parts req)). lia.
      * apply Forall_map. exact Hsz.
    + intros Hover. exfalso.
      destruct Hover as [Hover | Hover]; [lia|].
      apply Exists_exists in Hover as (file & Hin & Hun & Hbig).
      rewrite Forall_forall in Hsz.
      assert (Hin' : file ∈ named_parts (parts req)).
      { apply list_elem_of_In. apply filter_In. split.
        - apply list_elem_of_In. exact Hin.
        - rewrite Hun. reflexivity. }
      specialize (Hsz file Hin'). lia.
  - split.
    + intros uploadedFiles w1' Heq. rewrite Hup in Heq. discriminate.
    + intros _. exists e, w1. split; [exact Hup|].
      rewrite post_api_send_email_eq, Hup. auto.
Qed.

(** ** C6: what a successful send persists *)

(** C6. When a send request passes the upload middleware and the
    validation, the SMTP transport answers with a message id, and the store
    holds a list and can be written, the route answers 200 with that
    message id and the new id, the message has been handed to the
    transport, and the store file is the JSON text of the stored list with,
    in front, a record that holds the transport's [messageId], the status
    ['sent'], the recipient, the subject, the message text and the list of
    attachment file names, one for each file part that carries a file
    name (besides its id and [sent_at]). *)
Theorem sent_record_is_persisted (env : Env) (req : SendRequest) (w : World)
    (items : list value) (to subject message messageId : string) :
  body_to req = Some to ->
  body_subject req = Some subject ->
  body_message req = Some message ->
  invalid_fields req = false ->
  passes_upload "attachments" 5 0 (parts req) w ->
  readDatabase w = (Ok (VArr items), w) ->
  io_write w = true ->
  let filenames :=
    map (fun file => Buffer_latin1_to_utf8 (in_originalname file))
        (named_parts (parts req)) in
  let mailOptions :=
    mailOptions_of env to subject message
      (attachments_of (map stored_file (named_parts (parts req)))) in
  smtp_reply env mailOptions = Ok messageId ->
  let id := VNum (number_add (Date_now env) (Math_random env)) in
  let record :=
    VObj [("id", id);
          ("to", VStr to);
          ("subject", VStr subject);
          ("message", VStr message);
          ("attachments", VArr (map VStr filenames));
          ("messageId", VStr messageId);
          ("status", VStr "sent");
          ("sent_at", VStr (Date_toISOString env))] in
  exists w',
    post_api_send_email env req w =
    (Ok {| status := 200; body := SentBody (Some id) messageId |}, w')
    /\ files w' !! dbPath = Some (JSON_stringify (VArr (record :: items)) 2)
    /\ outbox w' = (outbox w ++ [mailOptions])%list.
Proof.
  intros Hto Hsub Hmsg Hinv Hadm Hread Hw filenames mailOptions Hsmtp id
    record.
  apply readDatabase_inv in Hread.
  rewrite post_api_send_email_eq.
  destruct (upload_array_spec req w)
    as (w1 & Hs1 & [(_ & Hup) | (Hna & _)]); [|contradiction].
  rewrite Hup.
  pose proof (same_store_db_value _ _ Hs1) as Hdb1. rewrite Hread in Hdb1.
  destruct Hs1 as (Hf1 & _ & Hw1 & Ho1). rewrite Hw in Hw1.
  destruct (send_email_valid env req
              (map stored_file (named_parts (parts req))) w1 items
              to subject message messageId Hto Hsub Hmsg Hinv
              (stored_files_outside_store _) Hdb1 Hw1 Hsmtp)
    as (w' & Hrun & Hf & Ho).
  exists w'. split; [|split].
  - rewrite Hrun. reflexivity.
  - rewrite Hf. unfold record, filenames, newEmail, emailData_of,
      attachments_of. cbn [spread obj_set fold_left fst snd String.eqb
      Ascii.eqb Bool.eqb]. rewrite !map_map. reflexivity.
  - rewrite Ho, Ho1. reflexivity.
Qed.

End UploadFacts.

Section ClientFacts.
Import Client.

(** ** Searching sets the display of the rendered items *)

Lemma prefix_spec (p s : list ascii) :
  prefix p s = true <-> exists post, s = (p ++ post)%list.
Proof.
  revert s. induction p as [|a p IH]; intros s; cbn.
  - split; [eauto | reflexivity].
  - destruct s as [|b s].
    + split; [discriminate | intros [post Hpost]; discriminate].
    + rewrite andb_true_iff, IH. split.
      * intros [Hab [post ->]]. apply Ascii.eqb_eq in Hab. subst. eauto.
      * intros [post Hpost]. injection Hpost as -> ->.
        split; [apply Ascii.eqb_refl | eauto].
Qed.

Lemma includes_from_spec (s p : list ascii) :
  includes_from s p = true <-> exists pre post, s = (pre ++ p ++ post)%list.
Proof.
  induction s as [|c s IH]; cbn [includes_from];
    rewrite orb_true_iff, prefix_spec.
  - split.
    + intros [[post Hpost] | Hf]; [|discriminate].
      exists [], post. exact Hpost.
    + intros (pre & post & Heq). left. destruct pre; [eauto|discriminate].
  - rewrite IH. split.
    + intros [[post Hpost] | (pre & post & ->)].
      * exists [], post. exact Hpost.
      * exists (c :: pre), post. reflexivity.
    + intros (pre & post & Heq). destruct pre as [|c' pre].
      * left. eauto.
      * right. injection Heq as -> ->. eauto.
Qed.

Lemma map_app_inv {A B} (f : A -> B) (l : list A) (k1 k2 : list B) :
  map f l = (k1 ++ k2)%list ->
  exists l1 l2, l = (l1 ++ l2)%list /\ map f l1 = k1 /\ map f l2 = k2.
Proof.
  revert l. induction k1 as [|b k1 IH]; intros l Heq.
  - exists [], l. auto.
  - destruct l as [|a l]; [discriminate|]. cbn in Heq.
    injection Heq as Hb Hrest.
    destruct (IH l Hrest) as (l1 & l2 & -> & <- & <-).
    exists (a :: l1), l2. cbn. rewrite Hb. auto.
Qed.

Lemma string_of_list_ascii_app (a b : list ascii) :
  string_of_list_ascii (a ++ b) =
  string_of_list_ascii a ++ string_of_list_ascii b.
Proof.
  induction a as [|c a IH]; simpl; [reflexivity | rewrite IH; reflexivity].
Qed.

Lemma list_ascii_of_string_app (a b : string) :
  list_ascii_of_string (a ++ b) =
  (list_ascii_of_string a ++ list_ascii_of_string b)%list.
Proof.
  induction a as [|c a IH]; simpl; [reflexivity | rewrite IH; reflexivity].
Qed.

Lemma toLowerCase_chars (s : string) :
  list_ascii_of_string (toLowerCase s) =
  map lower_char (list_ascii_of_string s).
Proof. unfold toLowerCase. apply list_ascii_of_string_of_list_ascii. Qed.

Lemma String_includes_lower (text term : string) :
  String_includes (toLowerCase text) (toLowerCase term) = true
  <-> contains_ci text term.
Proof.
  unfold String_includes, contains_ci.
  rewrite includes_from_spec, !toLowerCase_chars. split.
  - intros (pre & post & Heq).
    apply map_app_inv in Heq as (l1 & l23 & Htext & Hpre & Heq).
    apply map_app_inv in Heq as (l2 & l3 & -> & Hmid & Hpost).
    exists (string_of_list_ascii l1), (string_of_list_ascii l2),
      (string_of_list_ascii l3). split.
    + rewrite <- !string_of_list_ascii_app, <- Htext.
      symmetry. apply string_of_list_ascii_of_string.
    + unfold toLowerCase. rewrite list_ascii_of_string_of_list_ascii, Hmid.
      reflexivity.
  - intros (pre & mid & post & -> & Hmid).
    exists (map lower_char (list_ascii_of_string pre)),
      (map lower_char (list_ascii_of_string post)).
    rewrite !list_ascii_of_string_app, !map_app.
    rewrite <- (toLowerCase_chars mid), Hmid, toLowerCase_chars.
    reflexivity.
Qed.

(** [handleSearch] issues no request and changes neither the selected
    files nor the alerts; it keeps every rendered item, in place and with
    its heading, and sets its [display] to ['block'] or ['none']: to
    ['block'] exactly when the item has a heading whose text contains the
    search term, case ignored. *)
Lemma handleSearch_sets_display (term : string) (st : State) :
  fetched (handleSearch term st) = fetched st
  /\ selectedFiles (handleSearch term st) = selectedFiles st
  /\ alerts (handleSearch term st) = alerts st
  /\ length (emailItems (handleSearch term st)) = length (emailItems st)
  /\ (forall (i : nat) (item : EmailItem),
        emailItems st !! i = Some item ->
        exists item',
          emailItems (handleSearch term st) !! i = Some item'
          /\ h4 item' = h4 item
          /\ (display item' = "block" \/ display item' = "none")
          /\ (display item' = "block"
              <-> exists text, h4 item = Some text /\ contains_ci text term)).
Proof.
  unfold handleSearch. cbn [fetched selectedFiles alerts emailItems].
  repeat (split; [reflexivity|]). split; [apply length_map|].
  intros i item Hi. rewrite list_lookup_fmap, Hi.
  cbn [fmap option_fmap option_map].
  eexists. split; [reflexivity|].
  destruct (h4 item) as [text|] eqn:Hh4.
  - destruct (String_includes (toLowerCase text) (toLowerCase term)) eqn:Hinc;
      cbn [h4 display].
    + split; [reflexivity|]. split; [auto|].
      split; [|reflexivity]. intros _. exists text. split; [reflexivity|].
      apply String_includes_lower. exact Hinc.
    + split; [reflexivity|]. split; [auto|].
      split; [discriminate|]. intros (text' & Heq & Hci).
      injection Heq as <-. apply String_includes_lower in Hci. congruence.
  - cbn [h4 display]. split; [reflexivity|]. split; [auto|].
    split; [discriminate|]. intros (text' & Heq & _). discriminate.
Qed.

End ClientFacts.

(** ** C8: searching filters the rendered records *)

Section CaseFacts.
Import Client Rendering.


Lemma code_bound (c : ascii) : 0 <= code c < 256.
Proof. unfold code. pose proof (nat_ascii_bounded c). lia. Qed.





End CaseFacts.

Section RenderedSearch.
Context `{Engine} `{!Browser} `{!BrowserLaws}.
Import Client Rendering.






End RenderedSearch.

(** The selection of files in the page: at most 5 files, each of at most
    10 MB. The page keeps a file of exactly 10 MB ([file.size > 10 * 1024 *
    1024] refuses larger ones only), which the upload middleware of the
    server refuses. *)
Section ClientUploads.
Import Client.

Lemma add_files_small (newFiles : list File) :
  forall selected shown,
    Forall small selected ->
    Forall small (fst (add_files newFiles selected shown)).
Proof.
  induction newFiles as [|file rest IH]; intros selected shown Hsel;
    cbn [add_files]; [exact Hsel|].
  destruct (existsb (fun existingFile => same_file existingFile file) selected);
    cbn [negb]; [apply IH; exact Hsel|].
  destruct (Z.ltb_spec (10 * 1024 * 1024) (size file)) as [Hbig|Hok].
  - apply IH. exact Hsel.
  - apply IH. apply Forall_app. split; [exact Hsel|].
    constructor; [exact Hok | constructor].
Qed.

(** X21. After [handleFileSelection] the page holds at most 5 selected
    files, each of at most 10 MB, provided the files selected before were
    within the size limit; no request is issued. *)
Lemma handleFileSelection_within_limits (newFiles : list File) (st : State) :
  Forall small (selectedFiles st) ->
  (length (selectedFiles (handleFileSelection newFiles st)) <= 5)%nat
  /\ Forall small (selectedFiles (handleFileSelection newFiles st))
  /\ fetched (handleFileSelection newFiles st) = fetched st.
Proof.
  intros Hsel. unfold handleFileSelection.
  pose proof (add_files_small newFiles _ (alerts st) Hsel) as Hsmall.
  destruct (add_files newFiles (selectedFiles st) (alerts st))
    as [selected shown]. cbn [fst] in Hsmall.
  destruct (Z.ltb_spec 5 (Z.of_nat (length selected))) as [Hmany|Hfew];
    cbn [selectedFiles fetched].
  - unfold Array_slice. split; [|split; [|reflexivity]].
    + rewrite length_take. unfold relative_index. cbn. lia.
    + apply Forall_take, Forall_drop. exact Hsmall.
  - split; [lia|]. split; [exact Hsmall | reflexivity].
Qed.

Lemma removeFile_within_limits (index : nat) (st : State) :
  (length (selectedFiles st) <= 5)%nat ->
  Forall small (selectedFiles st) ->
  (length (selectedFiles (removeFile index st)) <= 5)%nat
  /\ Forall small (selectedFiles (removeFile index st)).
Proof.
  intros Hlen Hsel. unfold removeFile. cbn [selectedFiles]. split.
  - rewrite length_app, length_take, length_drop. lia.
  - apply Forall_app. split; [apply Forall_take | apply Forall_drop];
      exact Hsel.
Qed.

End ClientUploads.

(** ** The executable engine satisfies the law of Number::toString *)

Section ExecFacts.
Import Decimal Exec.
#[local] Arguments append !s1 s2 / : simpl nomatch.

Lemma append_empty_r (s : string) : s ++ EmptyString = s.
Proof.
  induction s as [|c s IH]; simpl; [reflexivity | rewrite IH; reflexivity].
Qed.

Lemma split_dot_digits (d : uint) (rest : string) :
  split_dot (NilEmpty.string_of_uint d ++ rest) =
  (NilEmpty.string_of_uint d ++ fst (split_dot rest), snd (split_dot rest)).
Proof.
  induction d as [|d IH|d IH|d IH|d IH|d IH|d IH|d IH|d IH|d IH|d IH];
    simpl; [destruct (split_dot rest); reflexivity | ..];
    rewrite IH; reflexivity.
Qed.

Lemma of_digits_printed (neg : bool) (i f : uint) :
  of_digits neg
    (NilZero.string_of_uint i
     ++ match f with
        | Nil => EmptyString
        | _ => "." ++ NilEmpty.string_of_uint f
        end)
  = Dec neg (printed i) f.
Proof.
  assert (Hi : NilZero.string_of_uint i = NilEmpty.string_of_uint (printed i))
    by (destruct i; reflexivity).
  assert (Hsplit :
            split_dot (NilEmpty.string_of_uint (printed i)
                       ++ match f with
                          | Nil => EmptyString
                          | _ => "." ++ NilEmpty.string_of_uint f
                          end)
            = (NilEmpty.string_of_uint (printed i),
               NilEmpty.string_of_uint f)).
  { rewrite split_dot_digits.
    destruct f; simpl; rewrite append_empty_r; reflexivity. }
  unfold of_digits. rewrite Hi, Hsplit, !NilEmpty.usu.
  destruct i; reflexivity.
Qed.

Lemma of_string_to_string (neg : bool) (i f : uint) :
  of_string (to_string (Dec neg i f)) = Dec neg (printed i) f.
Proof.
  unfold to_string. destruct neg.
  - simpl. apply of_digits_printed.
  - change (EmptyString ++ ?s) with s. rewrite <- of_digits_printed.
    destruct i; reflexivity.
Qed.

#[export] Instance exec_laws : NumbersLaws.
Proof.
  constructor. intros [|neg i f] Hn; [discriminate|].
  change (num_eqb (Dec neg i f) (of_string (to_string (Dec neg i f))) = true).
  rewrite of_string_to_string. destruct i; exact Hn.
Qed.

End ExecFacts.

(** The executable browser satisfies the law of texts without markup. *)
#[export] Instance exec_browser_laws : @BrowserLaws Exec.numbers
                                         ExecBrowser.browser.
Proof. constructor. reflexivity. Qed.

(** * The model on sample data *)

Section Counterexamples.
Import Exec ExecBrowser.

Lemma sample_store :
  db_value Sample.world = VArr [Sample.first_record].
Proof. reflexivity. Qed.

(** C3, as worded, fails: on a store that holds one record, the list
    stored after [addEmail] has the new record first and the old record
    second, which is not the old list with the new record at its end. *)
Lemma new_record_not_appended :
  ~ new_record_appended Sample.env Sample.emailData Sample.world.
Proof.
  intros Hclaim.
  pose proof (addEmail_array Sample.env Sample.emailData Sample.world _
                sample_store) as Hadd.
  set (w' := if io_write Sample.world then _ else _) in Hadd.
  assert (Hafter : db_value w' =
                   VArr [VObj (newEmail Sample.env Sample.emailData);
                         Sample.first_record])
    by reflexivity.
  specialize (Hclaim [Sample.first_record]
                (own_property "id" (newEmail Sample.env Sample.emailData)) w'
                [VObj (newEmail Sample.env Sample.emailData);
                 Sample.first_record]).
  rewrite !readDatabase_eq, sample_store, Hafter in Hclaim.
  specialize (Hclaim eq_refl Hadd eq_refl).
  apply (f_equal (fun l => match l with
                           | x :: _ => id_matches "1729999999999.75" x
                           | [] => false
                           end)) in Hclaim.
  vm_compute in Hclaim. discriminate Hclaim.
Qed.

(** C2, as worded, fails: a request without recipient whose attachment
    has a type that the file filter refuses is answered by Express's error
    handler with 500, not by the handler with 400. *)
Lemma invalid_request_answered_500 :
  ~ invalid_request_answered_400 Sample.env Sample.request_no_to_exe
      Sample.world.
Proof.
  intros Hclaim. destruct (Hclaim eq_refl) as (r & w' & Hrun & Hstatus & _).
  assert (Hr : fst (post_api_send_email Sample.env Sample.request_no_to_exe
                      Sample.world)
               = Ok (express_error (Error "File type not allowed")))
    by reflexivity.
  rewrite Hrun in Hr. cbn [fst] in Hr. injection Hr as ->.
  discriminate Hstatus.
Qed.


End Counterexamples.

Section Witnesses.
Import Exec.

Lemma sample_read :
  readDatabase Sample.world = (Ok (VArr [Sample.first_record]), Sample.world).
Proof. reflexivity. Qed.

(** C1 on the sample store: after [addEmail] the file is the JSON text of
    the two-record list. *)
Lemma store_file_is_JSON_of_list_in_memory_witness :
  readDatabase Sample.world = (Ok (VArr [Sample.first_record]), Sample.world)
  /\ io_write Sample.world = true
  /\ exists id w',
       addEmail Sample.env Sample.emailData Sample.world = (Ok id, w')
       /\ files w' =
          <[dbPath := JSON_stringify
                        (VArr [VObj (newEmail Sample.env Sample.emailData);
                               Sample.first_record]) 2]>
            (files Sample.world).
Proof.
  split; [reflexivity|]. split; [reflexivity|].
  apply (proj1 (store_file_is_JSON_of_list_in_memory Sample.world
                  [Sample.first_record] sample_read eq_refl)).
Defined.

(** C3 (amended) on the sample store. *)
Lemma addEmail_puts_new_record_first_witness :
  exists id w' items',
    addEmail Sample.env Sample.emailData Sample.world = (Ok id, w')
    /\ readDatabase w' = (Ok (VArr items'), w')
    /\ items' !! 0%nat = Some (VObj (newEmail Sample.env Sample.emailData))
    /\ (forall i : nat, items' !! S i = [Sample.first_record] !! i)
    /\ length items' = 2%nat.
Proof.
  apply (addEmail_puts_new_record_first Sample.env Sample.emailData
           Sample.world [Sample.first_record]); reflexivity.
Defined.

(** C4 on the sample store: page 1 with limit 10. *)
Lemma getEmails_offset_pagination_witness :
  exists page_items t,
    getEmails (Some 1) (Some 10) Sample.world =
    (Ok {| pg_emails := VArr page_items;
           pg_total := 1;
           pg_page := 1;
           pg_totalPages := Finite t |}, Sample.world)
    /\ (forall i : nat,
          page_items !! i =
          if decide (Z.of_nat i < 10)
          then [Sample.first_record] !! (Z.to_nat ((1 - 1) * 10) + i)%nat
          else None)
    /\ (t - 1) * 10 < 1 <= t * 10
    /\ (forall query_page query_limit,
          parseInt query_page = Some 1 ->
          parseInt query_limit = Some 10 ->
          get_api_emails query_page query_limit Sample.world =
          (Ok {| status := 200;
                 body := EmailsBody (VArr page_items)
                           {| currentPage := 1;
                              totalPages := Finite t;
                              totalEmails := 1;
                              hasNext := 1 <? t;
                              hasPrev := 1 <? 1 |} |}, Sample.world)).
Proof.
  apply (getEmails_offset_pagination Sample.world [Sample.first_record] 1 10);
    [reflexivity | lia | lia].
Defined.

Lemma sample_comparable :
  comparable "1729999999999.75" [Sample.first_record].
Proof. constructor; [exact I | constructor]. Qed.

Lemma two_records_read :
  readDatabase Scenario.two_records_world =
  (Ok (VArr [Sample.first_record; Scenario.second_record]),
   Scenario.two_records_world).
Proof. reflexivity. Qed.

(** C5 on a store of two records: deleting by the id of the first one
    leaves the second one, and deleting by an id that no record has
    answers 404 and changes nothing. *)
Lemma delete_removes_exactly_matching_records_witness :
  (exists w',
      delete_api_emails_id "1729999999999.75" Scenario.two_records_world =
      (Ok {| status := 200;
             body := MessageBody "Email deleted successfully" |}, w')
      /\ files w' =
         <[dbPath := JSON_stringify (VArr [Scenario.second_record]) 2]>
           (files Scenario.two_records_world))
  /\ delete_api_emails_id "42" Scenario.two_records_world =
     (Ok {| status := 404; body := ErrorBody "Email not found" |},
      Scenario.two_records_world).
Proof.
  assert (Hkeyed : Forall keyed_record
                     [Sample.first_record; Scenario.second_record])
    by (repeat constructor).
  split.
  - destruct (proj1 (delete_removes_exactly_matching_records
                       Scenario.two_records_world
                       [Sample.first_record; Scenario.second_record]
                       "1729999999999.75" two_records_read Hkeyed
                       (eq_refl true)))
      as (w' & Hrun & Hfile & _).
    + constructor. reflexivity.
    + exists w'. split; [exact Hrun|]. rewrite Hfile. reflexivity.
  - apply (proj2 (delete_removes_exactly_matching_records
                    Scenario.two_records_world
                    [Sample.first_record; Scenario.second_record]
                    "42" two_records_read Hkeyed (eq_refl true))).
    intros Hsome. apply Exists_exists in Hsome as (email & Hin & Hid).
    apply list_elem_of_In in Hin.
    destruct Hin as [<- | [<- | []]]; discriminate Hid.
Defined.


(** C2 (amended) on a request without recipient. *)
Lemma invalid_request_not_dispatched_witness :
  exists r w',
    post_api_send_email Sample.env Sample.request_no_to Sample.world
    = (Ok r, w')
    /\ outbox w' = outbox Sample.world
    /\ files w' !! dbPath = files Sample.world !! dbPath.
Proof.
  destruct (invalid_request_not_dispatched Sample.env Sample.request_no_to
              Sample.world eq_refl)
    as (r & w' & Hrun & Ho & Hf & _).
  exists r, w'. auto.
Defined.

Lemma sample_request_passes :
  passes_upload "attachments" 5 0 (parts Sample.request) Sample.world.
Proof.
  unfold passes_upload, passes_from.
  change (named_parts (parts Sample.request)) with (parts Sample.request).
  split; [constructor; [reflexivity | constructor]|].
  split; intros _; cbn [parts Sample.request length]; unfold files_limit;
    [lia | split; [lia | reflexivity]].
Qed.

Lemma blank_request_passes :
  passes_upload "attachments" 5 0 (parts Scenario.request_with_blank)
    Sample.world.
Proof.
  unfold passes_upload, passes_from.
  change (named_parts (parts Scenario.request_with_blank))
    with (parts Sample.request).
  split; [constructor; [reflexivity | constructor]|].
  split; intros _;
    cbn [parts Sample.request Scenario.request_with_blank length];
    unfold files_limit; [lia | split; [lia | reflexivity]].
Qed.

(** C6 on a request with one attachment and the part of an empty file
    input: the record names the one attachment. *)
Lemma sent_record_is_persisted_witness :
  exists w',
    post_api_send_email Sample.env Scenario.request_with_blank Sample.world =
    (Ok {| status := 200;
           body := SentBody (Some (VNum (of_string "1730000000000.25")))
                     "<2@relay>" |}, w')
    /\ files w' !! dbPath =
       Some (JSON_stringify
               (VArr [VObj [("id", VNum (of_string "1730000000000.25"));
                            ("to", VStr "bob@example.org");
                            ("subject", VStr "Report");
                            ("message", VStr "Hello Bob");
                            ("attachments", VArr [VStr "report.pdf"]);
                            ("messageId", VStr "<2@relay>");
                            ("status", VStr "sent");
                            ("sent_at", VStr "2024-10-27T03:33:20.000Z")];
                      Sample.first_record]) 2).
Proof.
  destruct (sent_record_is_persisted Sample.env Scenario.request_with_blank
              Sample.world
              [Sample.first_record] "bob@example.org" "Report" "Hello Bob"
              "<2@relay>" eq_refl eq_refl eq_refl eq_refl
              blank_request_passes sample_read eq_refl eq_refl)
    as (w' & Hrun & Hfile & _).
  exists w'. split; [exact Hrun | exact Hfile].
Defined.

(** C7 on a request with an attachment of exactly 10 MB: it is
    rejected. *)
Lemma upload_limits_enforced_witness :
  exists e w',
    upload_array "attachments" 5 (parts Scenario.request_at_limit)
      Sample.world = (Throw e, w')
    /\ post_api_send_email Sample.env Scenario.request_at_limit Sample.world
       = (Ok (express_error e), w')
    /\ status (express_error e) = 500
    /\ outbox w' = outbox Sample.world
    /\ files w' !! dbPath = files Sample.world !! dbPath.
Proof.
  apply (proj2 (upload_limits_enforced Sample.env Scenario.request_at_limit
                  Sample.world)).
  right. constructor. split; [reflexivity | cbn; lia].
Defined.

(** C9 on a store file that is not valid JSON. *)
Lemma readDatabase_total_empty_on_unusable_store_witness :
  readDatabase Sample.broken_world = (Ok (VArr []), Sample.broken_world).
Proof.
  apply (proj2 readDatabase_total_empty_on_unusable_store
           Sample.broken_world).
  right. right. exists "[{". split; reflexivity.
Defined.

End Witnesses.

Section ClientWitnesses.
Import Client Exec ExecBrowser.



End ClientWitnesses.

(** * Further properties *)

(** ** Paging through the history *)

Section PagingFacts.
Context `{Engine}.
Import HistoryView.

Lemma Array_slice_take_drop {A} (l : list A) (start len : Z) :
  0 <= start -> 0 <= len ->
  Array_slice l start (start + len) =
  take (Z.to_nat len) (drop (Z.to_nat start) l).
Proof.
  intros Hs Hl. apply list_eq. intros i.
  rewrite Array_slice_page by assumption.
  rewrite lookup_take, lookup_drop.
  destruct (decide (Z.of_nat i < len)), (decide (i < Z.to_nat len)%nat);
    try reflexivity; lia.
Qed.

Lemma page_records_array (w : World) (items : list value) (p l : Z) :
  db_value w = VArr items ->
  1 <= p -> 1 <= l ->
  page_records (getEmails (Some p) (Some l) w) =
  take (Z.to_nat l) (drop (Z.to_nat (p - 1) * Z.to_nat l) items).
Proof.
  intros Hdb Hp Hl. rewrite (getEmails_array _ _ _ _ Hdb).
  unfold page_records. cbn [fst pg_emails default from_option id].
  rewrite Array_slice_take_drop by nia. f_equal. f_equal. nia.
Qed.

Lemma chunks_concat {A} (l : list A) (n m : nat) :
  concat (map (fun k => take n (drop (k * n) l)) (seq 0 m)) = take (m * n) l.
Proof.
  induction m as [|m IH]; [reflexivity|].
  rewrite seq_S, map_app, concat_app, IH. cbn [map concat Nat.add].
  rewrite app_nil_r, take_take_drop. f_equal. lia.
Qed.

(** X3. The pages of a stored list, for a limit of at least 1, taken
    from page 1 to the last page that [getEmails] announces, are the list:
    every record is on exactly one page, in the stored order. *)
Theorem pages_cover_the_list (w : World) (items : list value) (l : Z) :
  readDatabase w = (Ok (VArr items), w) ->
  1 <= l ->
  exists t,
    Math_ceil_div (Z.of_nat (length items)) l = Finite t
    /\ concat (map (fun p => page_records (getEmails (Some p) (Some l) w))
                   (seqZ 1 t)) = items.
Proof.
  intros Hread Hl. apply readDatabase_inv in Hread.
  destruct (Math_ceil_div_pos (Z.of_nat (length items)) l) as (t & Ht & Hc);
    [lia | lia |].
  exists t. split; [exact Ht|].
  unfold seqZ. rewrite <- list_fmap_compose.
  transitivity (concat (map (fun k => take (Z.to_nat l)
                                       (drop (k * Z.to_nat l) items))
                            (seq 0 (Z.to_nat t)))).
  - f_equal. apply map_ext. intros k. unfold compose.
    rewrite (page_records_array w items _ l Hread) by lia.
    f_equal. f_equal. lia.
  - rewrite chunks_concat. apply take_ge. nia.
Qed.

Lemma page_nonempty {A} (items : list A) (n k : nat) :
  (1 <= n)%nat ->
  take n (drop k items) <> [] <-> (k < length items)%nat.
Proof.
  intros Hn. split.
  - intros Hne. destruct (decide (k < length items)%nat); [assumption|].
    rewrite drop_ge in Hne by lia. rewrite take_nil in Hne. contradiction.
  - intros Hk Heq. apply (f_equal length) in Heq.
    rewrite length_take, length_drop in Heq. cbn in Heq. lia.
Qed.

Lemma get_api_emails_list (w : World) (items : list value) (p l : Z)
    (query_page query_limit : option string) :
  db_value w = VArr items ->
  1 <= p ->
  1 <= l ->
  parseInt query_page = Some p ->
  parseInt query_limit = Some l ->
  exists t,
    (t - 1) * l < Z.of_nat (length items) <= t * l
    /\ get_api_emails query_page query_limit w =
       (Ok {| status := 200;
              body :=
                EmailsBody
                  (VArr (Array_slice items ((p - 1) * l) ((p - 1) * l + l)))
                  {| currentPage := p;
                     totalPages := Finite t;
                     totalEmails := Z.of_nat (length items);
                     hasNext := p <? t;
                     hasPrev := 1 <? p |} |}, w).
Proof.
  intros Hdb Hp Hl Hqp Hql.
  destruct (Math_ceil_div_pos (Z.of_nat (length items)) l) as (t & Ht & Hc);
    [lia | lia |].
  exists t. split; [exact Hc|].
  unfold get_api_emails, try_catch, bind. rewrite Hqp, Hql. unfold or_default.
  destruct (Z.eqb_spec p 0); [lia|]. destruct (Z.eqb_spec l 0); [lia|].
  rewrite (getEmails_array _ _ _ _ Hdb).
  cbn [default from_option id pg_emails pg_page pg_total pg_totalPages].
  rewrite Ht. reflexivity.
Qed.

Lemma next_page_has_records (w : World) (items : list value) (p l t : Z) :
  db_value w = VArr items ->
  1 <= p ->
  1 <= l ->
  (t - 1) * l < Z.of_nat (length items) <= t * l ->
  page_records (getEmails (Some (p + 1)) (Some l) w) <> [] <-> p < t.
Proof.
  intros Hdb Hp Hl Hc.
  rewrite (page_records_array w items (p + 1) l Hdb) by lia.
  rewrite page_nonempty by lia. nia.
Qed.

(** X4. GET /api/emails on a stored list, for a page and a limit of at
    least 1: [hasNext] is set exactly when the next page holds a record,
    and [hasPrev] exactly when the page is not the first. *)
Theorem hasNext_iff_next_page_has_records (w : World) (items : list value)
    (p l : Z) (query_page query_limit : option string) :
  readDatabase w = (Ok (VArr items), w) ->
  1 <= p ->
  1 <= l ->
  parseInt query_page = Some p ->
  parseInt query_limit = Some l ->
  exists emails pagination,
    get_api_emails query_page query_limit w =
    (Ok {| status := 200; body := EmailsBody emails pagination |}, w)
    /\ (hasNext pagination = true
        <-> page_records (getEmails (Some (p + 1)) (Some l) w) <> [])
    /\ (hasPrev pagination = true <-> 1 < p).
Proof.
  intros Hread Hp Hl Hqp Hql. apply readDatabase_inv in Hread.
  destruct (get_api_emails_list w items p l _ _ Hread Hp Hl Hqp Hql)
    as (t & Hc & Hrun).
  eexists _, _. split; [exact Hrun|]. cbn [hasNext hasPrev].
  rewrite (next_page_has_records w items p l t Hread Hp Hl Hc).
  split; apply Z.ltb_lt.
Qed.

(** X24. The page offers Next exactly when the next page of the history
    holds a record, and its button loads that page; it offers Previous
    only with a page number of at least 1, the one before the current
    page. *)
Theorem pagination_buttons_lead_to_pages (w : World) (items : list value)
    (p l : Z) (query_page query_limit : option string) :
  readDatabase w = (Ok (VArr items), w) ->
  1 <= p ->
  1 <= l ->
  parseInt query_page = Some p ->
  parseInt query_limit = Some l ->
  exists emails pagination,
    get_api_emails query_page query_limit w =
    (Ok {| status := 200; body := EmailsBody emails pagination |}, w)
    /\ (forall q,
          In (NextButton q) (displayPagination (Some pagination))
          <-> q = p + 1
              /\ page_records (getEmails (Some (p + 1)) (Some l) w) <> [])
    /\ (forall q,
          In (PrevButton q) (displayPagination (Some pagination)) ->
          q = p - 1 /\ 1 <= q).
Proof.
  intros Hread Hp Hl Hqp Hql. apply readDatabase_inv in Hread.
  destruct (get_api_emails_list w items p l _ _ Hread Hp Hl Hqp Hql)
    as (t & Hc & Hrun).
  eexists _, _. split; [exact Hrun|].
  unfold displayPagination. cbn [received totalPages currentPage].
  split; intros q.
  - rewrite (next_page_has_records w items p l t Hread Hp Hl Hc).
    destruct (Z.leb_spec t 1) as [Hle|Hgt].
    { split; [intros [] | intros [_ Hlt]; lia]. }
    rewrite !in_app_iff.
    assert (Hprev : ~ In (NextButton q)
                      (if 1 <? p then [PrevButton (p - 1)] else []))
      by (destruct (1 <? p); cbn [In]; intuition discriminate).
    assert (Hinfo : ~ In (NextButton q) [PageInfo p t])
      by (cbn [In]; intuition discriminate).
    destruct (Z.ltb_spec p t) as [Hlt|Hge]; cbn [In]; split.
    + intros [H1 | [H2 | [Hq | []]]]; [contradiction | contradiction |].
      injection Hq as <-. split; [reflexivity | lia].
    + intros [-> _]. right. right. left. reflexivity.
    + intros [H1 | [H2 | []]]; contradiction.
    + intros [_ Hlt]. lia.
  - destruct (Z.leb_spec t 1) as [Hle|Hgt]; [intros []|].
    rewrite !in_app_iff.
    assert (Hinfo : ~ In (PrevButton q) [PageInfo p t])
      by (cbn [In]; intuition discriminate).
    assert (Hnext : ~ In (PrevButton q)
                      (if p <? t then [NextButton (p + 1)] else []))
      by (destruct (p <? t); cbn [In]; intuition discriminate).
    destruct (Z.ltb_spec 1 p) as [Hlt|Hge]; cbn [In].
    + intros [[Hq | []] | [H1 | H2]]; [|contradiction | contradiction].
      injection Hq as <-. split; [reflexivity | lia].
    + intros [[] | [H1 | H2]]; contradiction.
Qed.

End PagingFacts.

(** ** Looking up, adding and deleting records *)

Section FindFacts.
Context `{Engine}.

Lemma Array_find_cases (f : value -> result bool) (l : list value) :
  (exists pre x post,
      l = (pre ++ x :: post)%list
      /\ Forall (fun y => f y = Ok false) pre
      /\ f x = Ok true
      /\ Array_find f l = Ok (Some x))
  \/ (Forall (fun y => f y = Ok false) l /\ Array_find f l = Ok None)
  \/ (exists pre x post e,
        l = (pre ++ x :: post)%list
        /\ Forall (fun y => f y = Ok false) pre
        /\ f x = Throw e
        /\ Array_find f l = Throw e).
Proof.
  induction l as [|y l IH]; [right; left; split; [constructor | reflexivity]|].
  cbn [Array_find]. destruct (f y) as [[|]|e] eqn:Hy.
  - left. exists [], y, l. auto.
  - destruct IH as [(pre & x & post & -> & Hpre & Hx & Hfind)
                   | [(Hall & Hfind)
                     | (pre & x & post & e & -> & Hpre & Hx & Hfind)]].
    + left. exists (y :: pre), x, post. auto.
    + right. left. auto.
    + right. right. exists (y :: pre), x, post, e. auto.
  - right. right. exists [], y, l, e. auto.
Qed.

(** X5. GET /api/emails/:id on a stored list answers with the first
    stored record whose id equals ([==]) the given one, 200; with 404 when
    no record has such an id; and with 500 when the comparison throws on a
    record before any match is found. *)
Theorem get_by_id_answers_first_match (w : World) (items : list value)
    (id : string) :
  readDatabase w = (Ok (VArr items), w) ->
  (exists pre found post,
      items = (pre ++ found :: post)%list
      /\ Forall (fun email => id_eq id email = Ok false) pre
      /\ id_eq id found = Ok true
      /\ get_api_emails_id id w =
         (Ok {| status := 200; body := EmailBody found |}, w))
  \/ (Forall (fun email => id_eq id email = Ok false) items
      /\ get_api_emails_id id w =
         (Ok {| status := 404; body := ErrorBody "Email not found" |}, w))
  \/ (exists pre email post e,
        items = (pre ++ email :: post)%list
        /\ Forall (fun email => id_eq id email = Ok false) pre
        /\ id_eq id email = Throw e
        /\ get_api_emails_id id w =
           (Ok {| status := 500; body := ErrorBody "Database error" |}, w)).
Proof.
  intros Hread. apply readDatabase_inv in Hread.
  unfold get_api_emails_id, try_catch, bind.
  rewrite (getEmailById_array _ _ _ Hread).
  destruct (Array_find_cases (id_eq id) items)
    as [(pre & x & post & Hsplit & Hpre & Hx & Hfind)
       | [(Hall & Hfind)
         | (pre & x & post & e & Hsplit & Hpre & Hx & Hfind)]];
    rewrite Hfind.
  - left. exists pre, x, post.
    destruct (id_eq_true_object _ _ Hx) as [props ->]. auto.
  - right. left. auto.
  - right. right. exists pre, x, post, e. auto.
Qed.

End FindFacts.

Section RoundTrips.
Context `{Engine} `{!NumbersLaws}.

Lemma own_property_obj_set (key k : string) (v : value)
    (props : list (string * value)) :
  own_property key (obj_set k v props) =
  if String.eqb k key then Some v else own_property key props.
Proof.
  induction props as [|[k0 v0] props IH]; cbn [obj_set own_property].
  - destruct (String.eqb k key); reflexivity.
  - destruct (String.eqb k0 k) eqn:Hk0; cbn [own_property].
    + apply String.eqb_eq in Hk0. subst k0.
      destruct (String.eqb k key); reflexivity.
    + rewrite IH. destruct (String.eqb k0 key) eqn:Hkey; [|reflexivity].
      apply String.eqb_eq in Hkey. subst k0.
      rewrite String.eqb_sym, Hk0. reflexivity.
Qed.

Lemma own_property_spread (key : string) (source : list (string * value)) :
  forall target,
    own_property key source = None ->
    own_property key (spread target source) = own_property key target.
Proof.
  unfold spread.
  induction source as [|[k v] source IH]; intros target Hnone;
    [reflexivity|].
  cbn [fold_left fst snd]. cbn [own_property] in Hnone.
  destruct (String.eqb k key) eqn:Hk; [discriminate|].
  rewrite IH by exact Hnone. rewrite own_property_obj_set, Hk. reflexivity.
Qed.

Lemma newEmail_id (env : Env) (emailData : list (string * value)) :
  own_property "id" emailData = None ->
  own_property "id" (newEmail env emailData) =
  Some (VNum (number_add (Date_now env) (Math_random env))).
Proof.
  intros Hnone. unfold newEmail.
  rewrite own_property_obj_set. cbn [String.eqb Ascii.eqb Bool.eqb].
  rewrite own_property_spread by exact Hnone. reflexivity.
Qed.

Lemma read_back (w : World) (v : value) :
  io_read w = true ->
  JSON_parse (JSON_stringify v 2) = Some v ->
  db_value (set_files w (<[dbPath := JSON_stringify v 2]> (files w))) = v.
Proof.
  intros Hr Hjson. unfold db_value. cbn [io_read files set_files].
  rewrite Hr, lookup_insert_eq, Hjson. reflexivity.
Qed.

(** X6. A record that [addEmail] has just stored is what
    GET /api/emails/:id answers for the decimal text of the id that
    [addEmail] returned. *)
Theorem added_record_found_by_returned_id (env : Env)
    (emailData : list (string * value)) (w : World) (items : list value) :
  readDatabase w = (Ok (VArr items), w) ->
  io_read w = true ->
  io_write w = true ->
  own_property "id" emailData = None ->
  number_eqb (number_add (Date_now env) (Math_random env))
    (number_add (Date_now env) (Math_random env)) = true ->
  JSON_parse
    (JSON_stringify (VArr (VObj (newEmail env emailData) :: items)) 2)
  = Some (VArr (VObj (newEmail env emailData) :: items)) ->
  exists w',
    addEmail env emailData w =
    (Ok (Some (VNum (number_add (Date_now env) (Math_random env)))), w')
    /\ get_api_emails_id
         (Number_toString (number_add (Date_now env) (Math_random env))) w'
       = (Ok {| status := 200;
                body := EmailBody (VObj (newEmail env emailData)) |}, w').
Proof.
  intros Hread Hr Hw Hnone Hn Hjson. apply readDatabase_inv in Hread.
  rewrite (addEmail_array _ _ _ _ Hread), Hw, (newEmail_id _ _ Hnone).
  eexists. split; [reflexivity|].
  unfold get_api_emails_id, try_catch, bind.
  rewrite (getEmailById_array _ _ _ (read_back w _ Hr Hjson)).
  cbn [Array_find].
  rewrite (id_eq_decimal_string (VObj (newEmail env emailData)) _
             (f_equal Ok (newEmail_id env emailData Hnone)) Hn).
  reflexivity.
Qed.

(** X7. Adding a record and then deleting by the decimal text of
    the returned id restores the store file to the JSON text of the list
    stored before, when no record stored before has that id. *)
Theorem add_then_delete_restores_list (env : Env)
    (emailData : list (string * value)) (w : World) (items : list value) :
  readDatabase w = (Ok (VArr items), w) ->
  io_read w = true ->
  io_write w = true ->
  own_property "id" emailData = None ->
  number_eqb (number_add (Date_now env) (Math_random env))
    (number_add (Date_now env) (Math_random env)) = true ->
  JSON_parse
    (JSON_stringify (VArr (VObj (newEmail env emailData) :: items)) 2)
  = Some (VArr (VObj (newEmail env emailData) :: items)) ->
  Forall (fun email =>
            id_eq (Number_toString
                     (number_add (Date_now env) (Math_random env))) email
            = Ok false) items ->
  exists id w' w'',
    addEmail env emailData w = (Ok id, w')
    /\ delete_api_emails_id
         (Number_toString (number_add (Date_now env) (Math_random env))) w'
       = (Ok {| status := 200;
                body := MessageBody "Email deleted successfully" |}, w'')
    /\ files w'' !! dbPath = Some (JSON_stringify (VArr items) 2).
Proof.
  intros Hread Hr Hw Hnone Hn Hjson Hfresh. apply readDatabase_inv in Hread.
  set (s := Number_toString (number_add (Date_now env) (Math_random env)))
    in *.
  rewrite (addEmail_array _ _ _ _ Hread), Hw.
  set (w' := set_files w _).
  assert (Hdb' : db_value w' = VArr (VObj (newEmail env emailData) :: items))
    by (apply read_back; assumption).
  assert (Hnew : id_eq s (VObj (newEmail env emailData)) = Ok true).
  { apply id_eq_decimal_string; [|exact Hn].
    cbn [Get_id]. rewrite (newEmail_id _ _ Hnone). reflexivity. }
  assert (Hcmp : comparable s (VObj (newEmail env emailData) :: items)).
  { constructor; [rewrite Hnew; exact I|].
    eapply Forall_impl; [exact Hfresh|]. intros x Hx. rewrite Hx. exact I. }
  assert (Hkept : List.filter (fun email => negb (id_matches s email))
                    (VObj (newEmail env emailData) :: items) = items).
  { cbn [List.filter]. unfold id_matches at 1. rewrite Hnew. cbn [negb].
    clear -Hfresh. induction Hfresh as [|x l Hx _ IH]; [reflexivity|].
    cbn [List.filter]. unfold id_matches at 1. rewrite Hx. cbn [negb].
    rewrite IH. reflexivity. }
  pose proof (deleteEmailById_array s w' _ Hdb' Hcmp) as Hdel.
  cbn zeta in Hdel. rewrite Hkept in Hdel.
  replace (existsb (id_matches s) (VObj (newEmail env emailData) :: items))
    with true in Hdel
    by (cbn [existsb]; unfold id_matches at 1; rewrite Hnew; reflexivity).
  replace (io_write w') with true in Hdel by (symmetry; exact Hw).
  eexists _, w', _. split; [reflexivity|]. split.
  - unfold delete_api_emails_id, try_catch, bind. rewrite Hdel. reflexivity.
  - cbn [files set_files]. apply lookup_insert_eq.
Qed.

End RoundTrips.

Section StoreRoutes.
Context `{Engine}.

(** X8. After a DELETE that answered 200, the same DELETE answers
    404 and GET /api/emails/:id answers 404 for that id. *)
Theorem delete_twice_answers_404 (w : World) (items : list value)
    (id : string) :
  readDatabase w = (Ok (VArr items), w) ->
  comparable id items ->
  io_read w = true ->
  io_write w = true ->
  Exists (fun email => id_eq id email = Ok true) items ->
  JSON_parse
    (JSON_stringify
       (VArr (List.filter (fun email => negb (id_matches id email)) items)) 2)
  = Some (VArr (List.filter (fun email => negb (id_matches id email)) items))
  ->
  exists w',
    delete_api_emails_id id w =
    (Ok {| status := 200; body := MessageBody "Email deleted successfully" |},
     w')
    /\ delete_api_emails_id id w' =
       (Ok {| status := 404; body := ErrorBody "Email not found" |}, w')
    /\ get_api_emails_id id w' =
       (Ok {| status := 404; body := ErrorBody "Email not found" |}, w').
Proof.
  intros Hread Hcmp Hr Hw Hex Hjson. apply readDatabase_inv in Hread.
  set (kept := List.filter (fun email => negb (id_matches id email)) items)
    in *.
  pose proof (deleteEmailById_array id w items Hread Hcmp) as Hdel.
  cbn zeta in Hdel. fold kept in Hdel.
  apply existsb_id_matches in Hex. rewrite Hex, Hw in Hdel.
  set (w' := set_files w _) in Hdel.
  assert (Hdb' : db_value w' = VArr kept) by (apply read_back; assumption).
  assert (Hnone : Forall (fun email => id_eq id email = Ok false) kept).
  { apply Forall_forall. intros x Hx. apply list_elem_of_In in Hx.
    unfold kept in Hx. apply filter_In in Hx as [Hin Hm].
    unfold comparable in Hcmp. rewrite Forall_forall in Hcmp.
    apply list_elem_of_In in Hin. specialize (Hcmp x Hin).
    unfold id_matches in Hm.
    destruct (id_eq id x) as [[|]|]; cbn in *;
      [discriminate | reflexivity | contradiction]. }
  assert (Hcmp' : comparable id kept).
  { eapply Forall_impl; [exact Hnone|]. intros x Hx. rewrite Hx. exact I. }
  assert (Hex' : existsb (id_matches id) kept = false).
  { apply not_true_is_false. intros Habs. apply existsb_exists in Habs
      as (x & Hin & Hm). rewrite Forall_forall in Hnone.
    apply list_elem_of_In in Hin. specialize (Hnone x Hin).
    unfold id_matches in Hm. rewrite Hnone in Hm. discriminate. }
  exists w'. split; [|split].
  - unfold delete_api_emails_id, try_catch, bind. rewrite Hdel. reflexivity.
  - pose proof (deleteEmailById_array id w' kept Hdb' Hcmp') as Hdel'.
    cbn zeta in Hdel'. rewrite Hex' in Hdel'.
    unfold delete_api_emails_id, try_catch, bind. rewrite Hdel'. reflexivity.
  - unfold get_api_emails_id, try_catch, bind.
    rewrite (getEmailById_array _ _ _ Hdb'),
      (Array_find_comparable _ _ Hcmp').
    destruct (List.find (id_matches id) kept) as [x|] eqn:Hfind;
      [|reflexivity].
    apply find_some in Hfind as [Hin Hm].
    assert (existsb (id_matches id) kept = true)
      by (apply existsb_exists; eauto).
    congruence.
Qed.

(** X9. [writeDatabase] never throws: it answers whether the write was
    accepted. After an accepted write of a value that JSON text
    represents, [readDatabase] answers that value; a refused write leaves
    the world as it was. *)
Theorem writeDatabase_then_readDatabase (data : value) (w : World) :
  io_read w = true ->
  JSON_parse (JSON_stringify data 2) = Some data ->
  exists w',
    writeDatabase data w = (Ok (io_write w), w')
    /\ (io_write w = true -> readDatabase w' = (Ok data, w'))
    /\ (io_write w = false -> w' = w).
Proof.
  intros Hr Hjson. rewrite writeDatabase_eq.
  destruct (io_write w) eqn:Hw; eexists; (split; [reflexivity|]).
  - split; [|discriminate]. intros _. rewrite readDatabase_eq.
    rewrite (read_back w data Hr Hjson). reflexivity.
  - split; [discriminate | reflexivity].
Qed.

(** X10. When the store file cannot be written, DELETE of a stored record
    still answers 200: the failure of the write is swallowed and the world
    is as it was, so the record is still stored. *)
Theorem delete_with_unwritable_store_answers_200 (w : World)
    (items : list value) (id : string) :
  readDatabase w = (Ok (VArr items), w) ->
  comparable id items ->
  io_write w = false ->
  Exists (fun email => id_eq id email = Ok true) items ->
  delete_api_emails_id id w =
  (Ok {| status := 200; body := MessageBody "Email deleted successfully" |},
   w).
Proof.
  intros Hread Hcmp Hw Hex. apply readDatabase_inv in Hread.
  pose proof (deleteEmailById_array id w items Hread Hcmp) as Hdel.
  cbn zeta in Hdel. apply existsb_id_matches in Hex.
  rewrite Hex, Hw in Hdel.
  unfold delete_api_emails_id, try_catch, bind. rewrite Hdel. reflexivity.
Qed.

(** X11. When the store file holds valid JSON that is neither a list nor a
    string, the three routes that read the history answer 500 and leave
    the world as it is. When it holds a string, looking up and deleting by
    id answer 500 as well, while the listing answers 200 with a slice of
    the characters of that string. *)
Theorem non_array_store_answers (w : World) (id : string)
    (query_page query_limit : option string) :
  is_array (db_value w) = false ->
  get_api_emails_id id w =
  (Ok {| status := 500; body := ErrorBody "Database error" |}, w)
  /\ delete_api_emails_id id w =
     (Ok {| status := 500; body := ErrorBody "Database error" |}, w)
  /\ exists r,
       get_api_emails query_page query_limit w = (Ok r, w)
       /\ match db_value w with
          | VStr s =>
              exists pagination,
                r = {| status := 200;
                       body :=
                         EmailsBody
                           (VStr (String_slice s
                                    ((or_default (parseInt query_page) 1 - 1)
                                     * or_default (parseInt query_limit) 10)
                                    ((or_default (parseInt query_page) 1 - 1)
                                     * or_default (parseInt query_limit) 10
                                     + or_default (parseInt query_limit) 10)))
                           pagination |}
                /\ totalEmails pagination = Z.of_nat (String.length s)
          | _ => r = {| status := 500; body := FailureBody "Database error" |}
          end.
Proof.
  intros Harr.
  unfold get_api_emails_id, delete_api_emails_id, get_api_emails,
    getEmailById, deleteEmailById, getEmails, try_catch, bind.
  rewrite !readDatabase_eq.
  destruct (db_value w); try discriminate Harr;
    (split; [reflexivity|]; split; [reflexivity|]);
    eexists; (split; [reflexivity|]); try reflexivity.
  eexists. split; reflexivity.
Qed.

(** X12. The two GET routes of the history always answer and never change
    the world, whatever the store holds and whatever the parameters:
    /api/emails answers 200 or 500, /api/emails/:id answers 200, 404 or
    500. *)
Theorem read_routes_change_nothing (w : World) (id : string)
    (query_page query_limit : option string) :
  (exists r,
      get_api_emails query_page query_limit w = (Ok r, w)
      /\ (status r = 200 \/ status r = 500))
  /\ (exists r,
        get_api_emails_id id w = (Ok r, w)
        /\ (status r = 200 \/ status r = 404 \/ status r = 500)).
Proof.
  unfold get_api_emails_id, get_api_emails, getEmailById, getEmails,
    try_catch, bind.
  rewrite !readDatabase_eq. split.
  - destruct (db_value w); eexists; (split; [reflexivity|]); cbn; auto.
  - destruct (db_value w) as [| | | |items|];
      try (eexists; split; [reflexivity|]; cbn; auto).
    unfold lift. destruct (Array_find (id_eq id) items) as [[email|]|e];
      try (eexists; split; [reflexivity|]; cbn; auto).
    destruct (ToBoolean email); eexists; (split; [reflexivity|]); cbn; auto.
Qed.

(** X13. DELETE /api/emails/:id always answers, with 200, 404 or 500; it
    hands nothing to the transport, touches no file other than the store
    file, and leaves the whole world as it was unless it answers 200. *)
Theorem delete_route_touches_only_the_store (w : World) (id : string) :
  exists r w',
    delete_api_emails_id id w = (Ok r, w')
    /\ (status r = 200 \/ status r = 404 \/ status r = 500)
    /\ outbox w' = outbox w
    /\ only_store_changed w w'
    /\ (status r <> 200 -> w' = w).
Proof.
  assert (Hrefl : only_store_changed w w) by (repeat split).
  unfold delete_api_emails_id, deleteEmailById, try_catch.
  unfold bind at 1. unfold bind at 1. rewrite readDatabase_eq.
  destruct (db_value w) as [| | | |items|];
    try (exists {| status := 500; body := ErrorBody "Database error" |}, w;
         split; [reflexivity|]; cbn; auto 6).
  unfold bind at 1. unfold lift.
  destruct (Array_filter (id_ne id) items) as [kept|e];
    [|exists {| status := 500; body := ErrorBody "Database error" |}, w;
      split; [reflexivity|]; cbn; auto 6].
  destruct (negb (length items =? length kept)%nat);
    [|exists {| status := 404; body := ErrorBody "Email not found" |}, w;
      split; [reflexivity|]; cbn; split; [auto|]; auto].
  unfold bind. rewrite writeDatabase_eq.
  destruct (io_write w) eqn:Hw.
  - eexists _, _. split; [reflexivity|]. cbn [status negb].
    split; [auto|]. split; [reflexivity|]. split.
    + split; [reflexivity|]. split; [reflexivity|].
      intros p Hp. cbn [files set_files]. apply lookup_insert_ne. congruence.
    + intros Hne. contradiction Hne. reflexivity.
  - eexists _, _. split; [reflexivity|]. cbn [status negb].
    split; [auto|]. split; [reflexivity|]. split; [exact Hrefl|].
    intros Hne. contradiction Hne. reflexivity.
Qed.

(** X14. The start of the server never changes what the database helpers
    read: a store file that exists is left alone, and a missing one is
    created with the empty list, which is what the helpers read from a
    missing file. When the file is missing and cannot be written the
    start fails. *)
Theorem initialize_database_keeps_history (w : World) :
  JSON_parse (JSON_stringify (VArr []) 2) = Some (VArr []) ->
  (files w !! dbPath <> None \/ io_write w = true ->
   exists w',
     initialize_database w = (Ok tt, w')
     /\ db_value w' = db_value w
     /\ files w' !! dbPath <> None
     /\ (files w !! dbPath <> None -> w' = w))
  /\ (files w !! dbPath = None -> io_write w = false ->
      exists e, initialize_database w = (Throw e, w)).
Proof.
  intros Hjson. unfold initialize_database. run_monad.
  destruct (files w !! dbPath) as [data|] eqn:Hfile.
  - rewrite bool_decide_eq_true_2 by eauto. cbn [negb]. split.
    + intros _. exists w. split; [reflexivity|]. split; [reflexivity|].
      split; [congruence | reflexivity].
    + discriminate.
  - rewrite bool_decide_eq_false_2 by (intros [x Hx]; discriminate).
    cbn [negb]. split.
    + intros [Hex | Hw]; [contradiction Hex; reflexivity|]. rewrite Hw.
      eexists. split; [reflexivity|].
      unfold db_value. cbn [files set_files io_read].
      rewrite lookup_insert_eq, Hfile, Hjson.
      split; [destruct (io_read w); reflexivity|].
      split; [discriminate | intros Hne; contradiction Hne; reflexivity].
    + intros _ Hw. rewrite Hw. eexists. reflexivity.
Qed.

End StoreRoutes.

(** ** The send route and the uploaded files *)

Section SendFacts.
Context `{Engine}.

Lemma cleanupFile_effect (filePath : string) (w : World) :
  exists w',
    cleanupFile filePath w = (Ok tt, w')
    /\ io_read w' = io_read w
    /\ io_write w' = io_write w
    /\ outbox w' = outbox w
    /\ (io_write w = true -> files w' !! filePath = None)
    /\ (forall p, p <> filePath -> files w' !! p = files w !! p)
    /\ (forall p, files w' !! p = None \/ files w' !! p = files w !! p).
Proof.
  unfold cleanupFile. run_monad.
  destruct (files w !! filePath) as [data|] eqn:Hfile.
  - rewrite bool_decide_eq_true_2 by eauto. rewrite Hfile.
    destruct (io_write w) eqn:Hw.
    + eexists. split; [reflexivity|].
      cbn [io_read io_write outbox files set_files].
      split; [reflexivity|]. split; [exact Hw|]. split; [reflexivity|].
      split; [intros _; apply lookup_delete_eq|].
      split; [intros p Hp; apply lookup_delete_ne; congruence|].
      intros p. destruct (decide (filePath = p)) as [->|Hne];
        [left; apply lookup_delete_eq
        |right; apply lookup_delete_ne; exact Hne].
    + exists w. split; [reflexivity|]. split; [reflexivity|].
      split; [exact Hw|]. split; [reflexivity|].
      split; [discriminate|]. split; auto.
  - rewrite bool_decide_eq_false_2 by (intros [x Hx]; discriminate).
    exists w. split; [reflexivity|]. split; [reflexivity|].
    split; [reflexivity|]. split; [reflexivity|].
    split; [intros _; exact Hfile|]. split; auto.
Qed.

Lemma cleanup_effect (fl : list UploadedFile) :
  forall w,
  exists w',
    forEach (fun f => cleanupFile (path f)) fl w = (Ok tt, w')
    /\ io_read w' = io_read w
    /\ io_write w' = io_write w
    /\ outbox w' = outbox w
    /\ (io_write w = true ->
        forall f, In f fl -> files w' !! path f = None)
    /\ (forall p, (forall f, In f fl -> path f <> p) ->
                  files w' !! p = files w !! p)
    /\ (forall p, files w' !! p = None \/ files w' !! p = files w !! p).
Proof.
  induction fl as [|f fl IH]; intros w.
  - exists w. split; [reflexivity|]. split; [reflexivity|].
    split; [reflexivity|]. split; [reflexivity|].
    split; [intros _ f []|]. split; auto.
  - destruct (cleanupFile_effect (path f) w)
      as (w1 & Hc & Hr1 & Hw1 & Ho1 & Hgone1 & Hother1 & Hany1).
    destruct (IH w1)
      as (w2 & Hrun & Hr2 & Hw2 & Ho2 & Hgone2 & Hother2 & Hany2).
    exists w2. cbn [forEach]. unfold bind. rewrite Hc.
    split; [exact Hrun|]. split; [congruence|]. split; [congruence|].
    split; [congruence|]. split; [|split].
    + intros Hw g [<- | Hin].
      * destruct (Hany2 (path f)) as [Hn | Heq]; [exact Hn|].
        rewrite Heq. apply Hgone1. exact Hw.
      * apply Hgone2; [congruence | exact Hin].
    + intros p Hp. rewrite Hother2 by (intros g Hg; apply Hp; right; exact Hg).
      apply Hother1. intros Heq.
      apply (Hp f (or_introl eq_refl)). congruence.
    + intros p. destruct (Hany2 p) as [Hn | Heq]; [left; exact Hn|].
      rewrite Heq. apply Hany1.
Qed.

Lemma pending_cleanup (w0 w w' : World) (stored : list UploadedFile) :
  pending w0 w stored ->
  forEach (fun f => cleanupFile (path f)) stored w = (Ok tt, w') ->
  leaves_no_files w0 w'.
Proof.
  intros [Hw Hp] Hrun.
  destruct (cleanup_effect stored w)
    as (w2 & Hrun2 & _ & _ & _ & Hgone & _ & Hany).
  rewrite Hrun in Hrun2. injection Hrun2 as <-.
  intros p Hne. destruct (Hp p Hne) as [Heq | [Hn | (Htrue & f & Hin & <-)]].
  - destruct (Hany p) as [H1 | H1]; [left; exact H1 | right; congruence].
  - destruct (Hany p) as [H1 | H1]; [left; exact H1 | left; congruence].
  - left. apply Hgone; assumption.
Qed.

Lemma pending_only_store_changed (w0 w wm : World)
    (stored : list UploadedFile) :
  pending w0 w stored -> only_store_changed w wm -> pending w0 wm stored.
Proof.
  intros [Hw Hp] (_ & Hwm & Hfiles). split; [congruence|].
  intros p Hne. rewrite (Hfiles p Hne), Hwm. apply Hp. exact Hne.
Qed.

Lemma multer_pending (field : string) (maxCount : Z)
    (parts : list IncomingFile) (w0 : World) :
  forall (seen n : Z) (stored : list UploadedFile) (w : World),
    pending w0 w stored ->
    exists res w1,
      multer field maxCount seen n stored parts w = (res, w1)
      /\ match res with
         | Ok uploadedFiles => pending w0 w1 uploadedFiles
         | Throw _ => leaves_no_files w0 w1
         end.
Proof.
  induction parts as [|file parts' IH]; intros seen n stored w Hpend.
  - exists (Ok stored), w. split; [reflexivity | exact Hpend].
  - assert (Habort : forall e,
               exists w1,
                 bind (forEach (fun f => cleanupFile (path f)) stored)
                   (fun _ => throw (A := list UploadedFile) e) w
                 = (Throw e, w1)
                 /\ leaves_no_files w0 w1).
    { intros e. destruct (cleanup_effect stored w) as (w1 & Hrun & _).
      exists w1. split; [unfold bind, throw; rewrite Hrun; reflexivity|].
      eapply pending_cleanup; eauto. }
    cbn [multer].
    destruct (files_limit <=? seen);
      [destruct (Habort (MulterError "LIMIT_FILE_COUNT")) as (w1 & -> & Hl);
       eexists _, _; split; [reflexivity | exact Hl]|].
    destruct (unnamed file); [apply IH; exact Hpend|].
    destruct (negb (String.eqb (in_fieldname file) field) || (maxCount <=? n));
      [destruct (Habort (MulterError "LIMIT_UNEXPECTED_FILE"))
         as (w1 & -> & Hl);
       eexists _, _; split; [reflexivity | exact Hl]|].
    destruct (fileFilter file) as [[]|e];
      [|destruct (Habort e) as (w1 & -> & Hl);
        eexists _, _; split; [reflexivity | exact Hl]].
    destruct (fileSize <=? in_size file);
      [destruct (Habort (MulterError "LIMIT_FILE_SIZE")) as (w1 & -> & Hl);
       eexists _, _; split; [reflexivity | exact Hl]|].
    rewrite bind_storage_handleFile.
    destruct (io_write w) eqn:Hw;
      [|destruct (Habort (EACCES (storage_path file))) as (w1 & -> & Hl);
        eexists _, _; split; [reflexivity | exact Hl]].
    apply IH. destruct Hpend as [Hw0 Hp]. split; [exact Hw0|].
    intros p Hne. cbn [files set_files io_write].
    destruct (decide (storage_path file = p)) as [<-|Hother].
    + right. right. split; [exact Hw|].
      exists (stored_file file). split; [|reflexivity].
      apply in_or_app. right. left. reflexivity.
    + rewrite lookup_insert_ne by exact Hother.
      destruct (Hp p Hne) as [H1 | [H1 | (H1 & f & Hin & Hf)]]; auto.
      right. right. split; [exact H1|]. exists f.
      split; [apply in_or_app; left; exact Hin | exact Hf].
Qed.

Lemma addEmail_cases (env : Env) (emailData : list (string * value))
    (w : World) :
  addEmail env emailData w =
  match db_value w with
  | VArr items =>
      (Ok (own_property "id" (newEmail env emailData)),
       if io_write w
       then set_files w
              (<[dbPath := JSON_stringify
                             (VArr (VObj (newEmail env emailData) :: items))
                             2]> (files w))
       else w)
  | _ => (Throw TypeError, w)
  end.
Proof.
  destruct (db_value w) eqn:Hdb;
    try (unfold addEmail, bind; rewrite readDatabase_eq, Hdb; reflexivity).
  apply addEmail_array. exact Hdb.
Qed.

(** The send handler, case by case: [wm] is the world before the final
    clean-up of the uploaded files. *)
Lemma send_email_outcome (env : Env) (req : SendRequest)
    (uploadedFiles : list UploadedFile) (w : World) :
  exists r wm,
    only_store_changed w wm
    /\ (forall w',
          forEach (fun f => cleanupFile (path f)) uploadedFiles wm
          = (Ok tt, w') ->
          send_email env req uploadedFiles w = (Ok r, w'))
    /\ ((invalid_fields req = true /\ status r = 400 /\ wm = w)
        \/ (invalid_fields req = false
            /\ files wm = files w
            /\ outbox wm
               = (outbox w ++ [request_mail env req uploadedFiles])%list
            /\ exists e,
                 r = {| status := 500; body := SendFailedBody e |}
                 /\ (smtp_reply env (request_mail env req uploadedFiles)
                     = Throw e
                     \/ (e = TypeError
                         /\ is_array (db_value w) = false
                         /\ exists messageId,
                              smtp_reply env
                                (request_mail env req uploadedFiles)
                              = Ok messageId)))
        \/ (invalid_fields req = false
            /\ outbox wm
               = (outbox w ++ [request_mail env req uploadedFiles])%list
            /\ exists messageId items,
                 smtp_reply env (request_mail env req uploadedFiles)
                 = Ok messageId
                 /\ db_value w = VArr items
                 /\ r = {| status := 200;
                           body :=
                             SentBody
                               (own_property "id"
                                  (newEmail env
                                     (request_emailData req uploadedFiles
                                        messageId)))
                               messageId |}
                 /\ files wm =
                    if io_write w
                    then <[dbPath :=
                             JSON_stringify
                               (VArr
                                  (VObj
                                     (newEmail env
                                        (request_emailData req uploadedFiles
                                           messageId)) :: items)) 2]>
                           (files w)
                    else files w)).
Proof.
  unfold send_email, try_catch, request_mail, request_emailData.
  destruct (invalid_fields req) eqn:Hinv.
  - exists {| status := 400;
             body := RejectedBody
                       (if missing (body_to req) || missing (body_subject req)
                           || missing (body_message req)
                        then "To, subject, and message are required fields"
                        else "Invalid email address") |}, w.
    split; [repeat split|]. split; [|left; auto].
    intros w' Hc. unfold invalid_fields in Hinv.
    destruct (missing (body_to req) || missing (body_subject req)
              || missing (body_message req)) eqn:Hmiss.
    + unfold bind. rewrite Hc. reflexivity.
    + cbn [orb] in Hinv. rewrite Hinv. unfold bind. rewrite Hc. reflexivity.
  - unfold invalid_fields in Hinv.
    apply orb_false_elim in Hinv as [Hmiss Hre]. rewrite Hmiss, Hre.
    set (mo := mailOptions_of env _ _ _ _).
    set (w2 := {| files := files w; io_read := io_read w;
                  io_write := io_write w;
                  outbox := (outbox w ++ [mo])%list |}).
    assert (Hw2 : only_store_changed w w2) by (repeat split).
    unfold bind at 1. unfold transporter_sendMail. fold w2.
    destruct (smtp_reply env mo) as [messageId|e] eqn:Hsmtp.
    + unfold bind at 1. rewrite addEmail_cases.
      change (db_value w2) with (db_value w).
      destruct (db_value w) as [| | | |items|] eqn:Hdb;
        try (exists {| status := 500; body := SendFailedBody TypeError |}, w2;
             split; [exact Hw2|]; split;
             [intros w' Hc; unfold bind; rewrite Hc; reflexivity|];
             right; left; split; [reflexivity|]; split; [reflexivity|];
             split; [reflexivity|]; exists TypeError;
             split; [reflexivity|]; right;
             split; [reflexivity|]; split; [reflexivity|]; eauto).
      eexists _, _. split; [|split].
      2:{ intros w' Hc. unfold bind. rewrite Hc. reflexivity. }
      * change (io_write w2) with (io_write w).
        destruct (io_write w) eqn:Hiw; [|exact Hw2].
        split; [reflexivity|]. split; [symmetry; exact Hiw|].
        intros p Hp. cbn [files set_files w2].
        apply lookup_insert_ne. congruence.
      * right. right. split; [reflexivity|]. split.
        -- change (io_write w2) with (io_write w).
           destruct (io_write w); reflexivity.
        -- exists messageId, items. split; [reflexivity|].
           split; [reflexivity|]. split; [reflexivity|].
           change (io_write w2) with (io_write w).
           destruct (io_write w); reflexivity.
    + exists {| status := 500; body := SendFailedBody e |}, w2.
      split; [exact Hw2|]. split.
      * intros w' Hc. unfold bind. rewrite Hc. reflexivity.
      * right. left. split; [reflexivity|]. split; [reflexivity|].
        split; [reflexivity|]. exists e. auto.
Qed.

Lemma pending_start (w : World) : pending w w [].
Proof. split; [reflexivity|]. intros p _. left. reflexivity. Qed.

(** POST /api/send-email, case by case. *)
Lemma post_api_send_email_outcome (env : Env) (req : SendRequest)
    (w : World) :
  exists r w',
    post_api_send_email env req w = (Ok r, w')
    /\ leaves_no_files w w'
    /\ io_read w' = io_read w
    /\ io_write w' = io_write w
    /\ ((~ passes_upload "attachments" 5 0 (parts req) w
         /\ (exists e, r = express_error e)
         /\ outbox w' = outbox w
         /\ files w' !! dbPath = files w !! dbPath)
        \/ (passes_upload "attachments" 5 0 (parts req) w
            /\ invalid_fields req = true
            /\ status r = 400
            /\ outbox w' = outbox w
            /\ files w' !! dbPath = files w !! dbPath)
        \/ (passes_upload "attachments" 5 0 (parts req) w
            /\ invalid_fields req = false
            /\ outbox w' = (outbox w ++ [route_mail env req])%list
            /\ files w' !! dbPath = files w !! dbPath
            /\ exists e,
                 r = {| status := 500; body := SendFailedBody e |}
                 /\ (smtp_reply env (route_mail env req) = Throw e
                     \/ (e = TypeError
                         /\ is_array (db_value w) = false
                         /\ exists messageId,
                              smtp_reply env (route_mail env req)
                              = Ok messageId)))
        \/ (passes_upload "attachments" 5 0 (parts req) w
            /\ invalid_fields req = false
            /\ outbox w' = (outbox w ++ [route_mail env req])%list
            /\ exists messageId items,
                 smtp_reply env (route_mail env req) = Ok messageId
                 /\ db_value w = VArr items
                 /\ r = {| status := 200;
                           body :=
                             SentBody
                               (own_property "id"
                                  (route_record env req messageId))
                               messageId |}
                 /\ files w' !! dbPath =
                    if io_write w
                    then Some (JSON_stringify
                                 (VArr (VObj (route_record env req messageId)
                                        :: items)) 2)
                    else files w !! dbPath)).
Proof.
  rewrite post_api_send_email_eq.
  destruct (upload_array_spec req w) as (w1 & Hs1 & Hcase).
  destruct (multer_pending "attachments" 5 (parts req) w 0 0 [] w
              (pending_start w)) as (res & w1' & Hm & Hres).
  fold (upload_array "attachments" 5 (parts req)) in Hm.
  pose proof Hs1 as (Hf1 & Hr1 & Hw1 & Ho1).
  destruct Hcase as [[Hpass Hup] | [Hnot (e & Hup)]]; rewrite Hup in *;
    injection Hm as <- <-.
  - destruct (send_email_outcome env req
                (map stored_file (named_parts (parts req))) w1)
      as (r & wm & Hosc & Hrun & Hout).
    destruct (cleanup_same_store
                (map stored_file (named_parts (parts req))) wm
                (stored_files_outside_store (named_parts (parts req))))
      as (w' & Hc & (Hf' & Hr' & Hw' & Ho')).
    exists r, w'. split; [apply Hrun; exact Hc|].
    split; [eapply pending_cleanup; [|exact Hc];
            eapply pending_only_store_changed; eauto|].
    destruct Hosc as (Hrm & Hwm & Hfm).
    split; [congruence|]. split; [congruence|]. right.
    destruct Hout
      as [(Hinv & Hst & ->)
         | [(Hinv & Hfiles & Hbox & e & -> & Hwhy)
           | (Hinv & Hbox & mid & items & Hsmtp & Hdb & -> & Hfiles)]].
    + left. split; [exact Hpass|]. split; [exact Hinv|].
      split; [exact Hst|]. split; congruence.
    + right. left. split; [exact Hpass|]. split; [exact Hinv|].
      split; [rewrite Ho', Hbox, Ho1; reflexivity|].
      split; [rewrite Hf', Hfiles; exact Hf1|].
      exists e. split; [reflexivity|].
      destruct Hwhy as [Hthrow | (-> & Harr & Hok)]; [left; exact Hthrow|].
      right. split; [reflexivity|].
      rewrite (same_store_db_value w w1 Hs1) in Harr. auto.
    + right. right. split; [exact Hpass|]. split; [exact Hinv|].
      split; [rewrite Ho', Hbox, Ho1; reflexivity|].
      exists mid, items. split; [exact Hsmtp|].
      split; [rewrite <- (same_store_db_value w w1 Hs1); exact Hdb|].
      split; [reflexivity|].
      rewrite Hf', Hfiles, Hw1. destruct (io_write w); [|exact Hf1].
      apply lookup_insert_eq.
  - exists (express_error e), w1. split; [reflexivity|].
    split; [exact Hres|]. split; [exact Hr1|]. split; [exact Hw1|].
    left. split; [exact Hnot|]. split; [eauto|]. split; assumption.
Qed.

(** X15. POST /api/send-email leaves no uploaded file behind, whatever the
    request and whatever the outcome: when it has answered, every path
    other than the store file is absent or holds what it held before the
    request. *)
Theorem send_route_leaves_no_upload_behind (env : Env) (req : SendRequest)
    (w : World) :
  leaves_no_files w (snd (post_api_send_email env req w)).
Proof.
  destruct (post_api_send_email_outcome env req w) as (r & w' & -> & Hl & _).
  exact Hl.
Qed.

(** X16. POST /api/send-email always answers, with 200, 400 or 500. It hands
    at most one message to the transport, the one composed from the
    request. An answer other than 200 leaves the store file as it was; 400
    is only answered to invalid fields, before anything is handed over; 200
    is only answered after the transport has accepted the message, and
    carries the message id of the transport. *)
Theorem send_route_answers (env : Env) (req : SendRequest) (w : World) :
  exists r w',
    post_api_send_email env req w = (Ok r, w')
    /\ (status r = 200 \/ status r = 400 \/ status r = 500)
    /\ (outbox w' = outbox w
        \/ outbox w' = (outbox w ++ [route_mail env req])%list)
    /\ (status r <> 200 -> files w' !! dbPath = files w !! dbPath)
    /\ (status r = 400 -> invalid_fields req = true /\ outbox w' = outbox w)
    /\ (status r = 200 ->
        outbox w' = (outbox w ++ [route_mail env req])%list
        /\ exists messageId emailId,
             smtp_reply env (route_mail env req) = Ok messageId
             /\ body r = SentBody emailId messageId).
Proof.
  destruct (post_api_send_email_outcome env req w)
    as (r & w' & Hrun & _ & _ & _ & Hcase).
  exists r, w'. split; [exact Hrun|].
  destruct Hcase as [(_ & (e & ->) & Hbox & Hfile)
                    | [(_ & Hinv & Hst & Hbox & Hfile)
                      | [(_ & _ & Hbox & Hfile & e & -> & _)
                        | (_ & _ & Hbox & mid & items & Hsmtp & _ & -> & _)]]].
  - cbn [status express_error].
    split; [auto|]. split; [auto|]. split; [auto|].
    split; discriminate.
  - rewrite Hst. split; [auto|]. split; [auto|]. split; [auto|].
    split; [auto | discriminate].
  - cbn [status].
    split; [auto|]. split; [auto|]. split; [auto|].
    split; discriminate.
  - cbn [status body].
    split; [auto|]. split; [auto|]. split; [congruence|].
    split; [discriminate|]. intros _. split; [exact Hbox|]. eauto.
Qed.

(** X17. When the transport refuses the message of a valid request, the
    answer is 500 with the error of the transport, the message has been
    handed over once and the store file is as it was: nothing is recorded
    for a message that was not sent. *)
Theorem transport_failure_answers_500 (env : Env) (req : SendRequest)
    (w : World) (e : error) :
  passes_upload "attachments" 5 0 (parts req) w ->
  invalid_fields req = false ->
  smtp_reply env (route_mail env req) = Throw e ->
  exists w',
    post_api_send_email env req w =
    (Ok {| status := 500; body := SendFailedBody e |}, w')
    /\ outbox w' = (outbox w ++ [route_mail env req])%list
    /\ files w' !! dbPath = files w !! dbPath.
Proof.
  intros Hpass Hvalid Hsmtp.
  destruct (post_api_send_email_outcome env req w)
    as (r & w' & Hrun & _ & _ & _ & Hcase).
  exists w'.
  destruct Hcase as [(Hnot & _)
                    | [(_ & Hinv & _)
                      | [(_ & _ & Hbox & Hfile & e' & -> & Hwhy)
                        | (_ & _ & _ & mid & items & Hok & _)]]];
    [contradiction | congruence | | congruence].
  destruct Hwhy as [Hthrow | (_ & _ & mid & Hok)]; [|congruence].
  rewrite Hsmtp in Hthrow. injection Hthrow as <-. auto.
Qed.

(** X18. When the store file holds valid JSON that is not a list, a valid
    send request is answered with 500 although the transport has accepted
    the message: the message is sent, no record of it is stored, and the
    store file is as it was. *)
Theorem send_to_non_array_store_mails_then_fails (env : Env)
    (req : SendRequest) (w : World) (messageId : string) :
  passes_upload "attachments" 5 0 (parts req) w ->
  invalid_fields req = false ->
  smtp_reply env (route_mail env req) = Ok messageId ->
  is_array (db_value w) = false ->
  exists w',
    post_api_send_email env req w =
    (Ok {| status := 500; body := SendFailedBody TypeError |}, w')
    /\ outbox w' = (outbox w ++ [route_mail env req])%list
    /\ files w' !! dbPath = files w !! dbPath.
Proof.
  intros Hpass Hvalid Hsmtp Harr.
  destruct (post_api_send_email_outcome env req w)
    as (r & w' & Hrun & _ & _ & _ & Hcase).
  exists w'.
  destruct Hcase as [(Hnot & _)
                    | [(_ & Hinv & _)
                      | [(_ & _ & Hbox & Hfile & e' & -> & Hwhy)
                        | (_ & _ & _ & mid & items & _ & Hdb & _)]]];
    [contradiction | congruence | |
     rewrite Hdb in Harr; discriminate Harr].
  destruct Hwhy as [Hthrow | (-> & _)]; [congruence|]. auto.
Qed.

(** X19. When the store file cannot be written, a valid send request is
    still answered with 200 and an email id: the failure of the write is
    swallowed, the store file is as it was, and the list read afterwards
    is the list read before, without the record the answer names. *)
Theorem send_with_unwritable_store_answers_200 (env : Env)
    (req : SendRequest) (w : World) (items : list value)
    (messageId : string) :
  io_write w = false ->
  passes_upload "attachments" 5 0 (parts req) w ->
  invalid_fields req = false ->
  smtp_reply env (route_mail env req) = Ok messageId ->
  readDatabase w = (Ok (VArr items), w) ->
  exists w',
    post_api_send_email env req w =
    (Ok {| status := 200;
           body := SentBody (own_property "id" (route_record env req messageId))
                     messageId |}, w')
    /\ files w' !! dbPath = files w !! dbPath
    /\ readDatabase w' = (Ok (VArr items), w').
Proof.
  intros Hw Hpass Hvalid Hsmtp Hread.
  rewrite readDatabase_eq in Hread. injection Hread as Hitems.
  destruct (post_api_send_email_outcome env req w)
    as (r & w' & Hrun & _ & Hr & _ & Hcase).
  exists w'.
  destruct Hcase as [(Hnot & _)
                    | [(_ & Hinv & _)
                      | [(_ & _ & _ & _ & e' & _ & Hwhy)
                        | (_ & _ & _ & mid & items' & Hok & _ & -> & Hfile)]]];
    [contradiction | congruence | |].
  - destruct Hwhy as [Hthrow | (_ & Harr & _)]; [congruence|].
    rewrite Hitems in Harr. discriminate Harr.
  - rewrite Hw in Hfile. rewrite Hsmtp in Hok. injection Hok as <-.
    split; [exact Hrun|]. split; [exact Hfile|].
    rewrite readDatabase_eq. f_equal. f_equal.
    rewrite <- Hitems. unfold db_value. rewrite Hr, Hfile. reflexivity.
Qed.

(** X20. The record the send route stores holds its attachments as file
    names, one string per uploaded file, and the history view of the page
    reads the [filename] property of each: every attachment of a stored
    record is labelled [Unknown]. *)
Theorem stored_attachments_are_labelled_unknown (env : Env)
    (req : SendRequest) (messageId : string) :
  exists names,
    own_property "attachments" (route_record env req messageId)
    = Some (VArr names)
    /\ length names = length (named_parts (parts req))
    /\ Forall (fun att =>
                 HistoryView.attachment_label att = Ok (VStr "Unknown"))
         names.
Proof.
  eexists. split; [reflexivity|]. split.
  - unfold attachments_of. rewrite !length_map. reflexivity.
  - apply Forall_map. apply Forall_forall. intros att _. reflexivity.
Qed.

End SendFacts.

(** ** The file filter *)

Section FilterFacts.

Lemma Matches_word_i (word : string) :
  forall s : list ascii,
    Matches (word_i word) s
    <-> Forall (fun c => code c < 128) s
        /\ map lower_char s = list_ascii_of_string word.
Proof.
  induction word as [|a word IH]; intros s; cbn [word_i list_ascii_of_string].
  - split.
    + intros Hm. inversion Hm; subst. split; [constructor | reflexivity].
    + intros [_ Hs]. destruct s; [constructor | discriminate].
  - split.
    + intros Hm. apply Matches_cat_inv in Hm as (s1 & s2 & -> & H1 & H2).
      inversion H1 as [|? c Hc| | | | |]; subst.
      apply andb_true_iff in Hc as [Hlt Heq].
      apply Z.ltb_lt in Hlt. apply Ascii.eqb_eq in Heq.
      apply IH in H2 as [Hall Hmap]. split.
      * constructor; assumption.
      * cbn. rewrite Heq, Hmap. reflexivity.
    + intros [Hall Hmap]. destruct s as [|c s]; [discriminate|].
      cbn in Hmap. injection Hmap as Hc Hs.
      apply Forall_cons in Hall as [Hlt Hall].
      apply (MCat (chr_i a) (word_i word) [c] s).
      * constructor. apply andb_true_iff. split.
        -- apply Z.ltb_lt. exact Hlt.
        -- apply Ascii.eqb_eq. exact Hc.
      * apply IH. split; assumption.
Qed.

Lemma Matches_alternatives (l : list regex) (s : list ascii) :
  Matches (alternatives l) s <-> Exists (fun r => Matches r s) l.
Proof.
  induction l as [|r l IH]; cbn [alternatives].
  - split; intros Hm; inversion Hm.
  - destruct l as [|r' l'].
    + split; [intros Hm; left; exact Hm|].
      intros Hm. inversion Hm as [? ? Hr|? ? Hr]; subst;
        [exact Hr | inversion Hr].
    + split.
      * intros Hm. inversion Hm; subst;
          [left; assumption | right; apply IH; assumption].
      * intros Hm. inversion Hm as [? ? Hr|? ? Hr]; subst;
          [apply MAltL; exact Hr | apply MAltR; apply IH; exact Hr].
Qed.

Lemma Matches_star_any (s : list ascii) : Matches (Star any) s.
Proof.
  apply Matches_star_class. apply Forall_forall. intros; reflexivity.
Qed.

(** X2. The file filter accepts exactly the names that end in a dot
    followed by one of the fourteen extensions, written in ASCII letters
    of either case; what precedes the dot is free, and may be empty. *)
Theorem allowedTypes_spec (s : string) :
  RegExp_test allowedTypes s = true
  <-> exists (stem ext : list ascii),
        list_ascii_of_string s = (stem ++ "."%char :: ext)%list
        /\ Forall (fun c => code c < 128) ext
        /\ In (string_of_list_ascii (map lower_char ext)) allowed_extensions.
Proof.
  unfold RegExp_test, allowedTypes. rewrite matches_spec.
  fold allowed_extensions. split.
  - intros Hm. apply Matches_cat_inv in Hm as (stem & s1 & Hs & _ & H1).
    apply Matches_cat_inv in H1 as (dot & ext & -> & Hdot & Hext).
    inversion Hdot as [|? x Hx| | | | |]; subst dot.
    apply Ascii.eqb_eq in Hx. subst x.
    apply Matches_alternatives in Hext.
    apply Exists_exists in Hext as (r & Hin & Hr).
    apply list_elem_of_In, in_map_iff in Hin as (word & <- & Hword).
    apply Matches_word_i in Hr as [Hall Hmap].
    exists stem, ext. split; [exact Hs|]. split; [exact Hall|].
    rewrite Hmap, string_of_list_ascii_of_string. exact Hword.
  - intros (stem & ext & -> & Hall & Hin).
    apply MCat; [apply Matches_star_any|].
    apply (MCat _ _ ["."%char]); [constructor; apply Ascii.eqb_refl|].
    apply Matches_alternatives, Exists_exists.
    exists (word_i (string_of_list_ascii (map lower_char ext))). split.
    + apply list_elem_of_In, in_map. exact Hin.
    + apply Matches_word_i. split; [exact Hall|].
      rewrite list_ascii_of_string_of_list_ascii. reflexivity.
Qed.

End FilterFacts.

(** ** The page: selected files and search *)

Section ClientSelection.
Import Client ClientView.

Lemma same_file_key (a b : File) :
  same_file a b = true <-> file_key a = file_key b.
Proof.
  unfold same_file, file_key.
  rewrite andb_true_iff, String.eqb_eq, Z.eqb_eq.
  split; [intros [-> ->]; reflexivity | intros Heq; injection Heq; auto].
Qed.

Lemma add_files_spec (newFiles : list File) :
  forall selected shown,
    distinct selected ->
    exists added,
      fst (add_files newFiles selected shown) = (selected ++ added)%list
      /\ Forall (fun file => In file newFiles /\ small file) added
      /\ distinct (selected ++ added).
Proof.
  induction newFiles as [|file rest IH]; intros selected shown Hsel;
    cbn [add_files].
  - exists []. rewrite app_nil_r. split; [reflexivity|].
    split; [constructor | exact Hsel].
  - assert (Hweak : forall added,
               Forall (fun f => In f rest /\ small f) added ->
               Forall (fun f => In f (file :: rest) /\ small f) added).
    { intros added Ha. eapply Forall_impl; [exact Ha|].
      intros f [Hin Hs]. split; [right; exact Hin | exact Hs]. }
    destruct (existsb (fun existingFile => same_file existingFile file)
                selected) eqn:Hex; cbn [negb].
    { destruct (IH selected shown Hsel) as (added & Heq & Hall & Hd).
      exists added. auto. }
    destruct (Z.ltb_spec (10 * 1024 * 1024) (size file)) as [Hbig|Hok].
    { destruct (IH selected
                  (shown
                   ++ [("File " ++ name file
                        ++ " is too large. Maximum size is 10MB.")%string]
                  )%list Hsel)
        as (added & Heq & Hall & Hd).
      exists added. auto. }
    assert (Hd1 : distinct (selected ++ [file])).
    { unfold distinct. rewrite map_app. apply NoDup_app.
      split; [exact Hsel|]. split; [|apply NoDup_singleton].
      intros k Hk Hk'. apply list_elem_of_singleton in Hk'. subst k.
      apply list_elem_of_In, in_map_iff in Hk as (g & Hg & Hin).
      assert (Htrue : existsb (fun existingFile => same_file existingFile file)
                        selected = true).
      { apply existsb_exists. exists g. split; [exact Hin|].
        apply same_file_key. exact Hg. }
      congruence. }
    destruct (IH (selected ++ [file])%list shown Hd1)
      as (added & Heq & Hall & Hd).
    exists (file :: added). rewrite Heq, <- app_assoc. split; [reflexivity|].
    split.
    + constructor; [split; [left; reflexivity | exact Hok]|].
      apply Hweak. exact Hall.
    + rewrite <- app_assoc in Hd. exact Hd.
Qed.

Lemma Array_slice_first {A} (l : list A) (n : Z) :
  0 <= n <= Z.of_nat (length l) ->
  Array_slice l 0 n = take (Z.to_nat n) l.
Proof.
  intros Hn. unfold Array_slice, relative_index.
  replace (n <? 0) with false by (symmetry; apply Z.ltb_ge; lia).
  change (0 <? 0) with false. cbv iota.
  rewrite (Z.min_l 0), (Z.min_l n) by lia.
  change (Z.to_nat 0) with 0%nat. rewrite drop_0. f_equal. lia.
Qed.

Lemma distinct_take (n : nat) (l : list File) :
  distinct l -> distinct (take n l).
Proof.
  unfold distinct. intros Hd. eapply sublist_NoDup; [exact Hd|].
  apply (fmap_sublist file_key), sublist_take.
Qed.

(** X22. Selecting more files never drops or reorders the files selected
    before (five at most) and never selects a file twice: the new
    selection is the old one followed by files of the new batch, each
    within the size limit, and no two of its files have the same name and
    size. Removing a file keeps the selection free of repetitions. *)
Theorem handleFileSelection_extends_selection (newFiles : list File)
    (st : State) :
  distinct (selectedFiles st) ->
  (length (selectedFiles st) <= 5)%nat ->
  (exists added,
      selectedFiles (handleFileSelection newFiles st)
      = (selectedFiles st ++ added)%list
      /\ Forall (fun file => In file newFiles /\ small file) added)
  /\ distinct (selectedFiles (handleFileSelection newFiles st))
  /\ (forall index, distinct (selectedFiles (removeFile index st))).
Proof.
  intros Hd Hlen. split; [|split].
  - unfold handleFileSelection.
    destruct (add_files_spec newFiles (selectedFiles st) (alerts st) Hd)
      as (added & Heq & Hall & _).
    destruct (add_files newFiles (selectedFiles st) (alerts st))
      as [selected shown]. cbn [fst] in Heq. subst selected.
    destruct (Z.ltb_spec 5 (Z.of_nat (length (selectedFiles st ++ added))))
      as [Hmany|Hfew]; cbn [selectedFiles].
    + rewrite Array_slice_first by lia. change (Z.to_nat 5) with 5%nat.
      exists (take (5 - length (selectedFiles st)) added).
      split; [|apply Forall_take; exact Hall].
      rewrite take_app, firstn_all2 by exact Hlen. reflexivity.
    + exists added. auto.
  - unfold handleFileSelection.
    destruct (add_files_spec newFiles (selectedFiles st) (alerts st) Hd)
      as (added & Heq & _ & Hd').
    destruct (add_files newFiles (selectedFiles st) (alerts st))
      as [selected shown]. cbn [fst] in Heq. subst selected.
    destruct (Z.ltb_spec 5 (Z.of_nat (length (selectedFiles st ++ added))))
      as [Hmany|Hfew]; cbn [selectedFiles]; [|exact Hd'].
    rewrite Array_slice_first by lia. apply distinct_take. exact Hd'.
  - intros index. unfold removeFile. cbn [selectedFiles].
    unfold distinct. eapply sublist_NoDup; [exact Hd|].
    apply (fmap_sublist file_key).
    rewrite <- delete_take_drop. apply sublist_delete.
Qed.

Lemma includes_empty (s : list ascii) : includes_from s [] = true.
Proof. destruct s; reflexivity. Qed.

(** X23. A search is not cumulative: the result of a search does not depend
    on the searches made before it, and a search for the empty term shows
    every item that has a heading again (an item without heading stays
    hidden). *)
Theorem handleSearch_is_not_cumulative (term earlier : string) (st : State) :
  handleSearch term (handleSearch earlier st) = handleSearch term st
  /\ emailItems (handleSearch EmptyString (handleSearch earlier st))
     = map shown_if_titled (emailItems st).
Proof.
  assert (Htwice : forall t,
             handleSearch t (handleSearch earlier st) = handleSearch t st).
  { intros t. unfold handleSearch.
    cbn [selectedFiles emailItems alerts fetched]. f_equal.
    rewrite map_map. apply map_ext. intros item. cbv beta.
    destruct (h4 item) as [text|]; [|reflexivity].
    destruct (String_includes (toLowerCase text) (toLowerCase earlier));
      reflexivity. }
  split; [apply Htwice|]. rewrite Htwice. unfold handleSearch.
  cbn [emailItems]. apply map_ext. intros item. unfold shown_if_titled.
  destruct (h4 item) as [text|]; [|reflexivity].
  unfold String_includes. cbn [toLowerCase list_ascii_of_string map
                               string_of_list_ascii].
  rewrite includes_empty. reflexivity.
Qed.

End ClientSelection.

(** * The further properties on sample data *)

Section FurtherWitnesses.
Import Exec.
Import HistoryView.

(** The sample store has one page. *)
Lemma pages_cover_the_list_witness :
  exists t,
    Math_ceil_div (Z.of_nat (length [Sample.first_record])) 10 = Finite t
    /\ concat (map (fun p => page_records
                               (getEmails (Some p) (Some 10) Sample.world))
                   (seqZ 1 t)) = [Sample.first_record].
Proof.
  apply (pages_cover_the_list Sample.world [Sample.first_record] 10);
    [reflexivity | lia].
Defined.

(** Page 1 of the sample store, limit 10. *)
Lemma hasNext_iff_next_page_has_records_witness :
  exists emails pagination,
    get_api_emails (Some "1") (Some "10") Sample.world =
    (Ok {| status := 200; body := EmailsBody emails pagination |},
     Sample.world)
    /\ (hasNext pagination = true
        <-> page_records (getEmails (Some (1 + 1)) (Some 10) Sample.world)
            <> [])
    /\ (hasPrev pagination = true <-> 1 < 1).
Proof.
  apply (hasNext_iff_next_page_has_records Sample.world
           [Sample.first_record] 1 10 (Some "1") (Some "10"));
    [reflexivity | lia | lia | reflexivity | reflexivity].
Defined.

Lemma pagination_buttons_lead_to_pages_witness :
  exists emails pagination,
    get_api_emails (Some "1") (Some "10") Sample.world =
    (Ok {| status := 200; body := EmailsBody emails pagination |},
     Sample.world)
    /\ (forall q,
          In (NextButton q) (displayPagination (Some pagination))
          <-> q = 1 + 1
              /\ page_records
                   (getEmails (Some (1 + 1)) (Some 10) Sample.world) <> [])
    /\ (forall q,
          In (PrevButton q) (displayPagination (Some pagination)) ->
          q = 1 - 1 /\ 1 <= q).
Proof.
  apply (pagination_buttons_lead_to_pages Sample.world
           [Sample.first_record] 1 10 (Some "1") (Some "10"));
    [reflexivity | lia | lia | reflexivity | reflexivity].
Defined.

(** Looking up the stored record of the sample store by its id. *)
Lemma get_by_id_answers_first_match_witness :
  (exists pre found post,
      [Sample.first_record] = (pre ++ found :: post)%list
      /\ Forall (fun email => id_eq "1729999999999.75" email = Ok false) pre
      /\ id_eq "1729999999999.75" found = Ok true
      /\ get_api_emails_id "1729999999999.75" Sample.world =
         (Ok {| status := 200; body := EmailBody found |}, Sample.world))
  \/ (Forall (fun email => id_eq "1729999999999.75" email = Ok false)
        [Sample.first_record]
      /\ get_api_emails_id "1729999999999.75" Sample.world =
         (Ok {| status := 404; body := ErrorBody "Email not found" |},
          Sample.world))
  \/ (exists pre email post e,
        [Sample.first_record] = (pre ++ email :: post)%list
        /\ Forall (fun email => id_eq "1729999999999.75" email = Ok false)
             pre
        /\ id_eq "1729999999999.75" email = Throw e
        /\ get_api_emails_id "1729999999999.75" Sample.world =
           (Ok {| status := 500; body := ErrorBody "Database error" |},
            Sample.world)).
Proof.
  apply (get_by_id_answers_first_match Sample.world [Sample.first_record]
           "1729999999999.75" sample_read).
Defined.

Lemma added_record_found_by_returned_id_witness :
  exists w',
    addEmail Sample.env Sample.emailData Sample.world =
    (Ok (Some (VNum (number_add (Date_now Sample.env)
                       (Math_random Sample.env)))), w')
    /\ get_api_emails_id
         (Number_toString (number_add (Date_now Sample.env)
                             (Math_random Sample.env))) w'
       = (Ok {| status := 200;
                body := EmailBody
                          (VObj (newEmail Sample.env Sample.emailData)) |},
          w').
Proof.
  apply (added_record_found_by_returned_id Sample.env Sample.emailData
           Sample.world [Sample.first_record]); reflexivity.
Defined.

Lemma add_then_delete_restores_list_witness :
  exists id w' w'',
    addEmail Sample.env Sample.emailData Sample.world = (Ok id, w')
    /\ delete_api_emails_id
         (Number_toString (number_add (Date_now Sample.env)
                             (Math_random Sample.env))) w'
       = (Ok {| status := 200;
                body := MessageBody "Email deleted successfully" |}, w'')
    /\ files w'' !! dbPath
       = Some (JSON_stringify (VArr [Sample.first_record]) 2).
Proof.
  apply (add_then_delete_restores_list Sample.env Sample.emailData
           Sample.world [Sample.first_record]); try reflexivity.
  constructor; [reflexivity | constructor].
Defined.

Lemma delete_twice_answers_404_witness :
  exists w',
    delete_api_emails_id "1729999999999.75" Sample.world =
    (Ok {| status := 200; body := MessageBody "Email deleted successfully" |},
     w')
    /\ delete_api_emails_id "1729999999999.75" w' =
       (Ok {| status := 404; body := ErrorBody "Email not found" |}, w')
    /\ get_api_emails_id "1729999999999.75" w' =
       (Ok {| status := 404; body := ErrorBody "Email not found" |}, w').
Proof.
  apply (delete_twice_answers_404 Sample.world [Sample.first_record]
           "1729999999999.75" sample_read sample_comparable);
    try reflexivity.
  constructor. reflexivity.
Defined.

Lemma writeDatabase_then_readDatabase_witness :
  exists w',
    writeDatabase (VArr []) Sample.world = (Ok (io_write Sample.world), w')
    /\ (io_write Sample.world = true ->
        readDatabase w' = (Ok (VArr []), w'))
    /\ (io_write Sample.world = false -> w' = Sample.world).
Proof.
  apply (writeDatabase_then_readDatabase (VArr []) Sample.world);
    reflexivity.
Defined.

Lemma delete_with_unwritable_store_answers_200_witness :
  delete_api_emails_id "1729999999999.75" Scenario.readonly_world =
  (Ok {| status := 200; body := MessageBody "Email deleted successfully" |},
   Scenario.readonly_world).
Proof.
  apply (delete_with_unwritable_store_answers_200 Scenario.readonly_world
           [Sample.first_record] "1729999999999.75");
    [reflexivity | exact sample_comparable | reflexivity|].
  constructor. reflexivity.
Defined.

Lemma object_store_not_array :
  is_array (db_value Scenario.object_world) = false.
Proof. reflexivity. Qed.

Lemma non_array_store_answers_witness :
  get_api_emails_id "1" Scenario.object_world =
  (Ok {| status := 500; body := ErrorBody "Database error" |},
   Scenario.object_world)
  /\ delete_api_emails_id "1" Scenario.object_world =
     (Ok {| status := 500; body := ErrorBody "Database error" |},
      Scenario.object_world).
Proof.
  destruct (non_array_store_answers Scenario.object_world "1" None None
              object_store_not_array) as (Hget & Hdel & _).
  split; [exact Hget | exact Hdel].
Defined.

Lemma initialize_database_keeps_history_witness :
  exists w',
    initialize_database Scenario.fresh_world = (Ok tt, w')
    /\ db_value w' = db_value Scenario.fresh_world
    /\ files w' !! dbPath <> None.
Proof.
  destruct (initialize_database_keeps_history Scenario.fresh_world)
    as [Hstart _]; [reflexivity|].
  destruct Hstart as (w' & Hrun & Hdb & Hfile & _); [right; reflexivity|].
  exists w'. auto.
Defined.

Lemma plain_request_passes :
  passes_upload "attachments" 5 0 (parts Scenario.plain_request)
    Scenario.readonly_world.
Proof.
  split; [constructor|]. split; intros Hne; contradiction Hne; reflexivity.
Qed.

Lemma transport_failure_answers_500_witness :
  exists w',
    post_api_send_email Scenario.failing_env Sample.request Sample.world =
    (Ok {| status := 500;
           body := SendFailedBody (SMTPError "connect ECONNREFUSED") |}, w')
    /\ outbox w'
       = (outbox Sample.world
          ++ [route_mail Scenario.failing_env Sample.request])%list
    /\ files w' !! dbPath = files Sample.world !! dbPath.
Proof.
  apply (transport_failure_answers_500 Scenario.failing_env Sample.request
           Sample.world (SMTPError "connect ECONNREFUSED")
           sample_request_passes eq_refl eq_refl).
Defined.

Lemma send_to_non_array_store_mails_then_fails_witness :
  exists w',
    post_api_send_email Sample.env Scenario.plain_request
      Scenario.object_world =
    (Ok {| status := 500; body := SendFailedBody TypeError |}, w')
    /\ outbox w'
       = (outbox Scenario.object_world
          ++ [route_mail Sample.env Scenario.plain_request])%list
    /\ files w' !! dbPath = files Scenario.object_world !! dbPath.
Proof.
  apply (send_to_non_array_store_mails_then_fails Sample.env
           Scenario.plain_request Scenario.object_world "<2@relay>");
    try reflexivity.
  split; [constructor|]. split; intros Hne; contradiction Hne; reflexivity.
Defined.

Lemma send_with_unwritable_store_answers_200_witness :
  exists w',
    post_api_send_email Sample.env Scenario.plain_request
      Scenario.readonly_world =
    (Ok {| status := 200;
           body := SentBody
                     (own_property "id"
                        (route_record Sample.env Scenario.plain_request
                           "<2@relay>"))
                     "<2@relay>" |}, w')
    /\ files w' !! dbPath = files Scenario.readonly_world !! dbPath
    /\ readDatabase w' = (Ok (VArr [Sample.first_record]), w').
Proof.
  apply (send_with_unwritable_store_answers_200 Sample.env
           Scenario.plain_request Scenario.readonly_world
           [Sample.first_record] "<2@relay>");
    [reflexivity | exact plain_request_passes
    | reflexivity | reflexivity | reflexivity].
Defined.

End FurtherWitnesses.

Section FurtherClientWitnesses.
Import Client ClientView.

Lemma handleFileSelection_within_limits_witness :
  (length (selectedFiles
             (handleFileSelection [Scenario.notes; Scenario.video]
                Sample.page)) <= 5)%nat
  /\ Forall small
       (selectedFiles
          (handleFileSelection [Scenario.notes; Scenario.video] Sample.page))
  /\ fetched (handleFileSelection [Scenario.notes; Scenario.video]
                Sample.page)
     = fetched Sample.page.
Proof.
  apply (handleFileSelection_within_limits
           [Scenario.notes; Scenario.video] Sample.page).
  constructor.
Defined.

Lemma handleFileSelection_extends_selection_witness :
  (exists added,
      selectedFiles
        (handleFileSelection [Scenario.notes; Scenario.video] Sample.page)
      = (selectedFiles Sample.page ++ added)%list
      /\ Forall (fun file =>
                   In file [Scenario.notes; Scenario.video] /\ small file)
           added)
  /\ distinct
       (selectedFiles
          (handleFileSelection [Scenario.notes; Scenario.video] Sample.page))
  /\ (forall index, distinct (selectedFiles (removeFile index Sample.page))).
Proof.
  apply (handleFileSelection_extends_selection
           [Scenario.notes; Scenario.video] Sample.page).
  - constructor.
  - cbn. lia.
Defined.

End FurtherClientWitnesses.
